(** * The action system of xanadu: a shallow embedding of [src/game/actions.ts]

    The development follows the source file top to bottom: numbers and
    strings as JavaScript has them, the regular expressions of the
    components, the data model, the collaborating modules, the seven action
    components and the registry.  Theorems come after the definitions. *)

From Stdlib Require Import ZArith String Ascii List Bool Lia DecimalString.
Import ListNotations.
Open Scope string_scope.
Open Scope Z_scope.

(** ** JavaScript numbers

    A [number] is a double that holds an integer, one of the two
    infinities or NaN.  The numeric fields of the actions come out of
    [parseInt] applied to a [\d+] group, which yields a non-negative
    integer or [Infinity]; the game's stats and stack amounts are integers.

    Arithmetic is that of IEEE 754 binary64: a sum, a difference or a
    product is the exact result rounded to the nearest double, ties to the
    even significand, and becomes an infinity past the largest double.
    Integers up to 2^53 in magnitude are doubles, so that arithmetic is exact
    as long as the results stay within that range.  The two zeros are not
    told apart: nothing in the components divides by zero or looks at the
    sign of a zero. *)

Inductive number : Type :=
| Fin (z : Z)
| PosInf
| NegInf
| NaN.

Definition isFinite (n : number) : bool :=
  match n with Fin _ => true | _ => false end.

Definition isNaN (n : number) : bool :=
  match n with NaN => true | _ => false end.

(** The double nearest to the non-negative integer [n]: the integer itself
    when it fits the 53 bits of the significand, otherwise its leading 53
    bits, rounded, times the power of two that was cut off. *)
Definition nearest_double (n : Z) : Z :=
  let e := Z.log2 n - 52 in
  if e <=? 0 then n
  else
    let q := n / 2 ^ e in
    let r := n mod 2 ^ e in
    let half := 2 ^ (e - 1) in
    if (half <? r) || ((r =? half) && Z.odd q) then (q + 1) * 2 ^ e
    else q * 2 ^ e.

(** The first power of two that is too large for a double. *)
Definition overflow_bound : Z := Eval vm_compute in 2 ^ 1024.

(** The number an exact integer result becomes. *)
Definition double_of_Z (z : Z) : number :=
  let m := nearest_double (Z.abs z) in
  if overflow_bound <=? m then (if 0 <? z then PosInf else NegInf)
  else Fin (Z.sgn z * m).

(** [a + b] *)
Definition num_add (a b : number) : number :=
  match a, b with
  | NaN, _ | _, NaN => NaN
  | Fin x, Fin y => double_of_Z (x + y)
  | PosInf, NegInf | NegInf, PosInf => NaN
  | PosInf, _ | _, PosInf => PosInf
  | NegInf, _ | _, NegInf => NegInf
  end.

(** [-a] *)
Definition num_neg (a : number) : number :=
  match a with
  | Fin x => Fin (- x)
  | PosInf => NegInf
  | NegInf => PosInf
  | NaN => NaN
  end.

(** [a - b] *)
Definition num_sub (a b : number) : number := num_add a (num_neg b).

Definition inf_of_sign (s : Z) : number :=
  if s =? 0 then NaN else if 0 <? s then PosInf else NegInf.

(** [a * b] *)
Definition num_mul (a b : number) : number :=
  match a, b with
  | NaN, _ | _, NaN => NaN
  | Fin x, Fin y => double_of_Z (x * y)
  | Fin x, PosInf | PosInf, Fin x => inf_of_sign x
  | Fin x, NegInf | NegInf, Fin x => inf_of_sign (- x)
  | PosInf, PosInf | NegInf, NegInf => PosInf
  | PosInf, NegInf | NegInf, PosInf => NegInf
  end.

(** [Math.floor] of the double nearest to [n / d], for positive integers
    [n] and [d], or to [- n / d] when [negative] is set.  The quotient lies
    between [2 ^ (e + 52)] and [2 ^ (e + 53)], so that its double is an
    integer [q'] of 53 bits times [2 ^ e]: [n / (d * 2 ^ e)] rounded to the
    nearest integer, ties to even.  ([d] is small, here 100: the quotient is
    never a subnormal.) *)
Definition floor_of_quotient (n d : Z) (negative : bool) : Z :=
  let K := Z.log2 d + 1 in
  let e := Z.log2 (n * 2 ^ K / d) - K - 52 in
  let N := if e <? 0 then n * 2 ^ (- e) else n in
  let D := if e <? 0 then d else d * 2 ^ e in
  let q := N / D in
  let r := N mod D in
  let q' := if (D <? 2 * r) || ((2 * r =? D) && Z.odd q) then q + 1 else q in
  let s := if negative then - q' else q' in
  if e <? 0 then s / 2 ^ (- e) else s * 2 ^ e.

(** [Math.floor(a / d)] for a positive integer constant [d]: the quotient
    is rounded to a double before [Math.floor] sees it. *)
Definition Math_floor_div (a : number) (d : Z) : number :=
  match a with
  | Fin x =>
      if x =? 0 then Fin 0
      else double_of_Z (floor_of_quotient (Z.abs x) d (x <? 0))
  | other => other
  end.

(** [Math.max(a, b)] *)
Definition Math_max (a b : number) : number :=
  match a, b with
  | NaN, _ | _, NaN => NaN
  | Fin x, Fin y => Fin (Z.max x y)
  | PosInf, _ | _, PosInf => PosInf
  | NegInf, other | other, NegInf => other
  end.

(** [a < b]; every comparison with NaN is false. *)
Definition num_ltb (a b : number) : bool :=
  match a, b with
  | NaN, _ | _, NaN => false
  | Fin x, Fin y => x <? y
  | NegInf, NegInf => false
  | NegInf, _ => true
  | _, NegInf => false
  | PosInf, _ => false
  | Fin _, PosInf => true
  end.

(** [a === b] on numbers. *)
Definition num_eqb (a b : number) : bool :=
  match a, b with
  | Fin x, Fin y => x =? y
  | PosInf, PosInf | NegInf, NegInf => true
  | _, _ => false
  end.

(** [a <= b] *)
Definition num_leb (a b : number) : bool := num_ltb a b || num_eqb a b.

(** [a > b] *)
Definition num_gtb (a b : number) : bool := num_ltb b a.

(** *** The text of a number

    [Number::toString] writes the decimal with the fewest significant
    digits that still reads back as the same double; of several with that
    many digits the one closest to the double, and of two equally close the
    even one.  Seventeen digits always suffice. *)

Definition decimal (z : Z) : string := NilZero.string_of_int (Z.to_int z).

(** The search, from [k] significant digits upwards, for a double [x] of
    [n] digits: the candidates with [k] digits are the multiples of
    [10 ^ (n - k)] on either side of [x]. *)
Fixpoint shortest_decimal (fuel : nat) (k n x : Z) : Z :=
  match fuel with
  | O => x
  | S fuel =>
      let m := n - k in
      if m <=? 0 then x
      else
        let unit := 10 ^ m in
        let lo := x / unit * unit in
        let hi := lo + unit in
        let lo_ok := nearest_double lo =? x in
        let hi_ok := nearest_double hi =? x in
        if lo_ok && hi_ok then
          if x - lo <? hi - x then lo
          else if hi - x <? x - lo then hi
          else if Z.even (x / unit) then lo else hi
        else if lo_ok then lo
        else if hi_ok then hi
        else shortest_decimal fuel (k + 1) n x
  end.

Fixpoint strip_zeros (rev_digits : list ascii) : list ascii :=
  match rev_digits with
  | "0"%char :: rest => strip_zeros rest
  | _ => rev_digits
  end.

(** The digits without their trailing zeros. *)
Definition significant (digits : string) : string :=
  string_of_list_ascii (rev (strip_zeros (rev (list_ascii_of_string digits)))).

(** A positive double: plain digits up to 21 of them, then the form
    [d.ddde+n]. *)
Definition positive_toString (x : Z) : string :=
  let s := shortest_decimal 17 1 (Z.of_nat (String.length (decimal x))) x in
  let digits := decimal s in
  let n := Z.of_nat (String.length digits) in
  if n <=? 21 then digits
  else
    match significant digits with
    | String first EmptyString => String first ("e+" ++ decimal (n - 1))
    | String first rest => String first ("." ++ rest ++ "e+" ++ decimal (n - 1))
    | EmptyString => digits
    end.

(** The text of a number inside a template literal. *)
Definition number_toString (n : number) : string :=
  match n with
  | Fin z =>
      match double_of_Z z with
      | Fin x =>
          if x =? 0 then "0"
          else if x <? 0 then "-" ++ positive_toString (- x)
          else positive_toString x
      | PosInf => "Infinity"
      | NegInf => "-Infinity"
      | NaN => "NaN"
      end
  | PosInf => "Infinity"
  | NegInf => "-Infinity"
  | NaN => "NaN"
  end.

(** ** Strings

    A [string] is a sequence of code units below 256. *)

Definition code (c : ascii) : nat := nat_of_ascii c.

Definition in_range (lo hi : nat) (c : ascii) : bool :=
  (Nat.leb lo (code c) && Nat.leb (code c) hi)%bool.

(** [String.prototype.toLowerCase] on one code unit: A-Z and the
    upper-case letters of Latin-1 move up by 32. *)
Definition lower_ascii (c : ascii) : ascii :=
  if (in_range 65 90 c || in_range 192 214 c || in_range 216 222 c)%bool
  then ascii_of_nat (code c + 32) else c.

Fixpoint toLowerCase (s : string) : string :=
  match s with
  | EmptyString => EmptyString
  | String c rest => String (lower_ascii c) (toLowerCase rest)
  end.

(** The canonical form the [i] flag compares: the upper-case code unit,
    where that is again below 256. *)
Definition canonicalize (c : ascii) : ascii :=
  if (in_range 97 122 c || in_range 224 246 c || in_range 248 254 c)%bool
  then ascii_of_nat (code c - 32) else c.

Definition dquote : string := String (ascii_of_nat 34) EmptyString.

(** [array.push(x)] *)
Definition push {A : Type} (l : list A) (x : A) : list A := List.app l [x].

(** ** Regular expressions

    The patterns of the components use literals, alternation, the classes
    [\w], [\d] and [\s], [+], [?] and the anchors.  [RegExp_test] decides
    whether the whole text is in the language of the expression, by
    derivatives; an unanchored pattern is wrapped by [unanchored]. *)

Inductive re : Type :=
| Void
| Eps
| Class (p : ascii -> bool)
| Cat (r1 r2 : re)
| Alt (r1 r2 : re)
| Star (r : re).

Fixpoint nullable (r : re) : bool :=
  match r with
  | Void => false
  | Eps => true
  | Class _ => false
  | Cat r1 r2 => nullable r1 && nullable r2
  | Alt r1 r2 => nullable r1 || nullable r2
  | Star _ => true
  end.

Fixpoint deriv (c : ascii) (r : re) : re :=
  match r with
  | Void => Void
  | Eps => Void
  | Class p => if p c then Eps else Void
  | Cat r1 r2 =>
      if nullable r1 then Alt (Cat (deriv c r1) r2) (deriv c r2)
      else Cat (deriv c r1) r2
  | Alt r1 r2 => Alt (deriv c r1) (deriv c r2)
  | Star r1 => Cat (deriv c r1) (Star r1)
  end.

Fixpoint RegExp_test (r : re) (text : string) : bool :=
  match text with
  | EmptyString => nullable r
  | String c rest => RegExp_test (deriv c r) rest
  end.

(** A literal character under the [i] flag. *)
Definition chr_i (x : ascii) : re :=
  Class (fun c => Ascii.eqb (canonicalize c) (canonicalize x)).

(** A literal string under the [i] flag. *)
Fixpoint lit_i (s : string) : re :=
  match s with
  | EmptyString => Eps
  | String x rest => Cat (chr_i x) (lit_i rest)
  end.

(** [(n1|n2|...)], as built by [names.join('|')]; the names are literal
    text. *)
Fixpoint alt_i (names : list string) : re :=
  match names with
  | [] => Eps
  | [n] => lit_i n
  | n :: rest => Alt (lit_i n) (alt_i rest)
  end.

Definition is_digit (c : ascii) : bool := in_range 48 57 c.

Definition is_word (c : ascii) : bool :=
  (in_range 48 57 c || in_range 65 90 c || in_range 97 122 c
   || Nat.eqb (code c) 95)%bool.

Definition is_space (c : ascii) : bool :=
  (in_range 9 13 c || Nat.eqb (code c) 32 || Nat.eqb (code c) 160)%bool.

Definition plus (r : re) : re := Cat r (Star r).
Definition opt (r : re) : re := Alt r Eps.
Definition re_d : re := Class is_digit.
Definition re_w : re := Class is_word.
Definition re_s : re := Class is_space.
Definition any_text : re := Star (Class (fun _ => true)).

(** Whether the code unit [c] occurs in the text. *)
Fixpoint mentions (c : ascii) (s : string) : bool :=
  match s with
  | EmptyString => false
  | String c' rest => (Ascii.eqb c' c || mentions c rest)%bool
  end.

(** A pattern without [^] and [$] matches anywhere in the text. *)
Definition unanchored (r : re) : re := Cat any_text (Cat r any_text).

(** The language of an expression. *)
Inductive matches : re -> string -> Prop :=
| M_Eps : matches Eps EmptyString
| M_Class p c : p c = true -> matches (Class p) (String c EmptyString)
| M_Cat r1 r2 s1 s2 :
    matches r1 s1 -> matches r2 s2 -> matches (Cat r1 r2) (s1 ++ s2)
| M_AltL r1 r2 s : matches r1 s -> matches (Alt r1 r2) s
| M_AltR r1 r2 s : matches r2 s -> matches (Alt r1 r2) s
| M_StarNil r : matches (Star r) EmptyString
| M_StarCons r s1 s2 :
    matches r s1 -> matches (Star r) s2 -> matches (Star r) (s1 ++ s2).

(** ** Data model

    [actions.ts] declares the actions, the validation and perform results
    and the component interface.  The records of the game it works on
    (stats, meters, items, stacks, inventories, cells, players, messages,
    animals) are declared in modules that are not part of the sources at
    hand; they are modelled here with the fields the components read and
    write, each under a comment that says so. *)

(** The identity of an animal object.  Actions, players and the world refer
    to animals by identity, so that a change made through one reference is
    seen through every other. *)
Definition loc : Type := nat.

Definition ItemName : Type := string.

(** Modelled from the spec: [Cell.Position], the [{ row, col }] object
    that [MOVE_COMPONENT] builds for the old and the new position. *)
Record Position : Type := mkPosition { prow : number; pcol : number }.

(** Modelled from the spec: the stats of an animal ([./stats] is not part
    of the sources at hand); the four fields are those the game's tests
    assign. *)
Record Stats : Type := mkStats {
  health : number;
  intelligence : number;
  strength : number;
  agility : number
}.

(** Modelled from the spec: a meter is a bounded current/maximum effect
    tracker of a character ([./character] is not part of the sources at
    hand); the components read and write [isActive], [current] and
    [maximum]. *)
Record Meter : Type := mkMeter {
  isActive : bool;
  current : number;
  maximum : number
}.

(** Modelled from the spec: the five effects of a character that
    [REST_COMPONENT] and [INGEST_COMPONENT] touch. *)
Record Effects : Type := mkEffects {
  poison : Meter;
  addiction : Meter;
  exhaustion : Meter;
  hunger : Meter;
  immortality : Meter
}.

(** Modelled from the spec: what an ingestible item carries
    ([./items/ingestible] is not part of the sources at hand), field by
    field as [INGEST_COMPONENT.perform] reads it. *)
Record Ingestible : Type := mkIngestible {
  ing_stats : Stats;
  curesPoisoning : bool;
  isPoisoned : bool;
  isAddictive : bool;
  givesImmortality : bool;
  addictionRelief : number;
  exhaustionRelief : number;
  hungerRelief : number
}.

(** Modelled from the spec: the item declarations ([./items/*]) are not
    part of the sources at hand.  An item is a plain item, a melee weapon,
    a gun or an ingestible; the type guards [Weapon.isWeaponGun] and
    [Ingestible.itemIsIngestible] test the variant. *)
Inductive Item : Type :=
| PlainItem (name : ItemName)
| MeleeWeapon (name : ItemName) (range damageAmount : number)
| Gun (name : ItemName) (range damageAmount accuracy : number)
      (bullet : ItemName)
| IngestibleItem (name : ItemName) (props : Ingestible).

Definition item_name (i : Item) : ItemName :=
  match i with
  | PlainItem n | MeleeWeapon n _ _ | Gun n _ _ _ _ | IngestibleItem n _ => n
  end.

(** [item.range] in a numeric comparison; a missing property is
    [undefined], which compares as NaN. *)
Definition item_range (i : Item) : number :=
  match i with
  | MeleeWeapon _ r _ | Gun _ r _ _ _ => r
  | _ => NaN
  end.

(** [item.damageAmount] in a product; a missing property is [undefined],
    which multiplies as NaN. *)
Definition item_damageAmount (i : Item) : number :=
  match i with
  | MeleeWeapon _ _ d | Gun _ _ d _ _ => d
  | _ => NaN
  end.

(** Modelled from the spec: the type guard [Weapon.isWeaponGun]. *)
Definition Weapon_isWeaponGun (i : Item) : bool :=
  match i with Gun _ _ _ _ _ => true | _ => false end.

(** Modelled from the spec: the type guard
    [Ingestible.itemIsIngestible]. *)
Definition Ingestible_itemIsIngestible (i : Item) : bool :=
  match i with IngestibleItem _ _ => true | _ => false end.

(** Modelled from the spec: a stack is a quantity of a single item kind up
    to a maximum capacity ([./items/item] is not part of the sources at
    hand); the field names are those the components read. *)
Record ItemStack : Type := mkItemStack {
  item : Item;
  stackAmount : number;
  maxStackAmount : number
}.

(** Modelled from the spec: [Item.createItemStack(item, amount, max)]
    builds the stack of its three arguments. *)
Definition Item_createItemStack (i : Item) (amount max : number) : ItemStack :=
  mkItemStack i amount max.

(** Modelled from the spec: an inventory holds [itemStacks]
    ([./inventory] is not part of the sources at hand). *)
Record Inventory : Type := mkInventory { itemStacks : list ItemStack }.

(** Modelled from the spec: a room, with the fields the components read
    behind the guard [Cell.isRoom]. *)
Record Room : Type := mkRoom {
  room_row : number;
  room_col : number;
  items : list ItemStack;
  hasCamp : bool
}.

(** Modelled from the spec: the cell declarations ([./map/cell]) are not
    part of the sources at hand.  A cell is a room, a barrier or of some
    other kind; [Cell.isRoom] and [Cell.isBarrier] test the variant. *)
Inductive Cell : Type :=
| RoomCell (r : Room)
| BarrierCell (p : Position)
| OtherCell (p : Position).

(** Modelled from the spec: the type guard [Cell.isRoom]. *)
Definition Cell_isRoom (c : Cell) : bool :=
  match c with RoomCell _ => true | _ => false end.

(** Modelled from the spec: [Cell.isBarrier]. *)
Definition Cell_isBarrier (c : Cell) : bool :=
  match c with BarrierCell _ => true | _ => false end.

(** Modelled from the spec: a participant of the game ([./player] is not
    part of the sources at hand), with its [id], its [name] and the
    identity of its [character]. *)
Record Player : Type := mkPlayer {
  id : string;
  name : string;
  character : loc
}.

(** Modelled from the spec: the kinds of messages and a message
    ([./messaging] is not part of the sources at hand), with the fields the
    game's tests read. *)
Inductive MessageType : Type := Game | Talk | Shout | Whisper.

Record Message : Type := mkMessage {
  type : MessageType;
  content : string;
  to : list Player
}.

(** Modelled from the spec: [Messaging.createGameMessage] (the messaging
    module is not part of the sources at hand) builds a message of kind
    Game with the given content and recipients. *)
Definition Messaging_createGameMessage (text : string) (recipients : list Player)
  : Message :=
  mkMessage Game text recipients.

Inductive ComponentKey : Type :=
| Move | Pass | Ingest | Rest | Attack | Pickup | Drop.

Definition key_name (k : ComponentKey) : string :=
  match k with
  | Move => "Move" | Pass => "Pass" | Ingest => "Ingest" | Rest => "Rest"
  | Attack => "Attack" | Pickup => "Pickup" | Drop => "Drop"
  end.

Record ValidationResult : Type := mkValidationResult {
  isValid : bool;
  error : option string
}.

Record PerformResult : Type := mkPerformResult {
  log : list string;
  messages : list Message
}.

Record MoveAction : Type := mkMoveAction {
  move_actor : loc;
  move_timestamp : number;
  offsetRow : number;
  offsetCol : number;
  move_key : ComponentKey
}.

Record IngestAction : Type := mkIngestAction {
  ingest_actor : loc;
  ingest_timestamp : number;
  ingest_itemName : ItemName;
  ingest_key : ComponentKey
}.

Record AttackAction : Type := mkAttackAction {
  attack_actor : loc;
  attack_timestamp : number;
  targetName : string;
  weaponName : string;
  times : number;
  attack_key : ComponentKey
}.

Record ItemTransaction : Type := mkItemTransaction {
  tx_actor : loc;
  tx_timestamp : number;
  tx_itemName : ItemName;
  transactionAmount : option number;
  tx_key : ComponentKey
}.

(** [PassAction] and [RestAction] add nothing to [Action]. *)
Record Action : Type := mkAction {
  actor : loc;
  timestamp : number;
  key : ComponentKey
}.

(** The result of running code that may throw. *)
Inductive Outcome (A : Type) : Type :=
| Ok (a : A)
| Throw (msg : string).
Arguments Ok {A} a.
Arguments Throw {A} msg.

(** The two map representations are kept abstract: the game's map and the
    personal map of a character. *)
Class MapTypes : Type := {
  GameMap : Type;
  CharacterMap : Type
}.

Section Model.
Context {MT : MapTypes}.

(** Modelled from the spec: an animal ([./animal] and [./character] are
    not part of the sources at hand), with the fields the components read.
    The actor is tagged as participant-controlled or not: an animal with a
    [playerId] is a player's character.  [playerId], [effects] and
    [charMap] (the character's [map]) are read only behind the guard
    [Character.isPlayerCharacter]. *)
Record Animal : Type := mkAnimal {
  row : number;
  col : number;
  stats : Stats;
  inventory : Inventory;
  playerId : option string;
  effects : Effects;
  charMap : CharacterMap
}.

(** Modelled from the spec: the type guard
    [Character.isPlayerCharacter]. *)
Definition Character_isPlayerCharacter (a : Animal) : bool :=
  match playerId a with Some _ => true | None => false end.

(** The animal seen as a position, as in [Map.getCell(game.map, actor)]. *)
Definition position_of (a : Animal) : Position := mkPosition (row a) (col a).

(** Modelled from the spec: the game ([../context/game] is not part of
    the sources at hand) and the objects it reaches: the animal objects by
    identity, [game.players], [game.map], and the future draws of
    [game.rng.pickone([true, false])]. *)
Record World : Type := mkWorld {
  animals : loc -> Animal;
  players : list Player;
  map : GameMap;
  rng : nat -> bool;
  rngDraws : nat
}.

End Model.

(** ** The collaborating modules

    [actions.ts] imports its helpers from modules that are not part of the
    sources at hand.  They are taken as parameters: every theorem below
    holds for whatever these functions compute.  A helper that reads the
    objects a player reaches takes the animal store. *)
Class Collaborators `{MT : MapTypes} : Type := {
  (** [helpers] and [./player] *)
  isApproximateSubstring : string -> string -> bool;
  isPlaying : (loc -> Animal) -> Player -> bool;
  (** [Game.getPlayer] *)
  Game_getPlayer : World -> string -> option Player;
  (** [./character], [./animal], [./entity], [./stats] *)
  Character_meterIsActive : Meter -> bool;
  Character_updateMeterCurrentValue : Meter -> number -> number;
  Animal_isDead : Animal -> bool;
  moveEntity : Animal -> Position -> Animal;
  Stats_changeStats : Stats -> Stats -> Stats;
  (** [./map/map], [./map/cell], [./map/describeRoom], [./map/characterMap] *)
  Map_isWithinMap : GameMap -> Position -> bool;
  Map_getCell : GameMap -> Position -> Cell;
  Cell_cardinalPositionDistance : Cell -> Cell -> number;
  Cell_getPositionsBetween : Position -> Position -> list Position;
  describeRoom : Cell -> GameMap -> string;
  reveal : CharacterMap -> Cell -> CharacterMap;
  (** [./inventory] and [./items/item] *)
  Inventory_hasItem : Inventory -> ItemName -> bool;
  Inventory_getItem : Inventory -> ItemName -> option ItemStack;
  Inventory_removeFromInventory :
    Inventory -> ItemName -> number -> Outcome (Inventory * ItemStack);
  Inventory_inventoryIsFull : Inventory -> bool;
  Item_hasItem : list ItemStack -> ItemName -> bool;
  Item_getItem : list ItemStack -> ItemName -> option ItemStack;
  Item_stackIsFull : ItemStack -> bool;
  (** [./items/weapon], [./items/ingestible], [./items/itemName] *)
  Weapon_stringIsAttackWeaponName : string -> bool;
  Weapon_namesForAttacking : list string;
  Weapon_FIST_range : number;
  Weapon_FIST_damageAmount : number;
  Ingestible_names : list string;
  itemNames : list string
}.

Section Actions.
Context `{C : Collaborators}.

(** Modelled from the spec: [Weapon.FIST], the innate unarmed weapon, a
    melee weapon of some range and damage; [weaponName === 'Fist'] selects
    it. *)
Definition Weapon_FIST : Item :=
  MeleeWeapon "Fist" Weapon_FIST_range Weapon_FIST_damageAmount.

(** *** Field updates *)

Definition with_stats (a : Animal) (s : Stats) : Animal :=
  mkAnimal (row a) (col a) s (inventory a) (playerId a) (effects a) (charMap a).

Definition with_inventory (a : Animal) (i : Inventory) : Animal :=
  mkAnimal (row a) (col a) (stats a) i (playerId a) (effects a) (charMap a).

Definition with_effects (a : Animal) (e : Effects) : Animal :=
  mkAnimal (row a) (col a) (stats a) (inventory a) (playerId a) e (charMap a).

Definition with_charMap (a : Animal) (m : CharacterMap) : Animal :=
  mkAnimal (row a) (col a) (stats a) (inventory a) (playerId a) (effects a) m.

Definition with_health (s : Stats) (h : number) : Stats :=
  mkStats h (intelligence s) (strength s) (agility s).

Definition with_strength (s : Stats) (x : number) : Stats :=
  mkStats (health s) (intelligence s) x (agility s).

Definition with_agility (s : Stats) (x : number) : Stats :=
  mkStats (health s) (intelligence s) (strength s) x.

Definition with_current (m : Meter) (x : number) : Meter :=
  mkMeter (isActive m) x (maximum m).

Definition with_isActive (m : Meter) (b : bool) : Meter :=
  mkMeter b (current m) (maximum m).

Definition with_poison (e : Effects) (m : Meter) : Effects :=
  mkEffects m (addiction e) (exhaustion e) (hunger e) (immortality e).

Definition with_addiction (e : Effects) (m : Meter) : Effects :=
  mkEffects (poison e) m (exhaustion e) (hunger e) (immortality e).

Definition with_exhaustion (e : Effects) (m : Meter) : Effects :=
  mkEffects (poison e) (addiction e) m (hunger e) (immortality e).

Definition with_hunger (e : Effects) (m : Meter) : Effects :=
  mkEffects (poison e) (addiction e) (exhaustion e) m (immortality e).

Definition with_immortality (e : Effects) (m : Meter) : Effects :=
  mkEffects (poison e) (addiction e) (exhaustion e) (hunger e) m.

(** *** Code that changes the world and may throw

    A throw keeps the changes made before it, as in JavaScript. *)
Definition M (A : Type) : Type := World -> Outcome A * World.

Definition ret {A : Type} (a : A) : M A := fun w => (Ok a, w).

Definition throw {A : Type} (msg : string) : M A := fun w => (Throw msg, w).

Definition bind {A B : Type} (m : M A) (k : A -> M B) : M B :=
  fun w =>
    match m w with
    | (Ok a, w') => k a w'
    | (Throw msg, w') => (Throw msg, w')
    end.

Definition getWorld : M World := fun w => (Ok w, w).

Definition readAnimal (l : loc) : M Animal := fun w => (Ok (animals w l), w).

(** The world after a change to the object [l]: every reference to [l]
    sees it. *)
Definition updateWorld (w : World) (l : loc) (f : Animal -> Animal) : World :=
  mkWorld (fun l' => if Nat.eqb l' l then f (animals w l) else animals w l')
          (players w) (map w) (rng w) (rngDraws w).

Definition updateAnimal (l : loc) (f : Animal -> Animal) : M unit :=
  fun w => (Ok tt, updateWorld w l f).

(** [game.rng.pickone([true, false])] *)
Definition rng_pickone : M bool :=
  fun w =>
    (Ok (rng w (rngDraws w)),
     mkWorld (animals w) (players w) (map w) (rng w) (S (rngDraws w))).

Definition valid : ValidationResult := mkValidationResult true None.

Definition invalid (reason : string) : ValidationResult :=
  mkValidationResult false (Some reason).

(** [JSON.stringify] of a number and of a position object. *)
Definition JSON_number (n : number) : string :=
  match n with
  | Fin _ => number_toString n
  | _ => "null"
  end.

Definition JSON_stringify (p : Position) : string :=
  "{" ++ dquote ++ "row" ++ dquote ++ ":" ++ JSON_number (prow p) ++ ","
      ++ dquote ++ "col" ++ dquote ++ ":" ++ JSON_number (pcol p) ++ "}".

End Actions.

Declare Scope action_scope.
Notation "x <- c1 ;; c2" := (bind c1 (fun x => c2))
  (at level 61, c1 at next level, right associativity) : action_scope.
Notation "c1 ;;; c2" := (bind c1 (fun _ => c2))
  (at level 61, right associativity) : action_scope.
Open Scope action_scope.

Section Components.
Context `{C : Collaborators}.

Fixpoint seq (rs : list re) : re :=
  match rs with
  | [] => Eps
  | [r] => r
  | r :: rest => Cat r (seq rest)
  end.

(** The registry's view of a component: the two fields that
    [getComponentByText] and [getComponentByKey] read. *)
Record ActionParserComponent : Type := mkComponent {
  pattern : re;
  componentKey : ComponentKey
}.

(** [action.key === component.componentKey] *)
Definition ComponentKey_eqb (k1 k2 : ComponentKey) : bool :=
  String.eqb (key_name k1) (key_name k2).

Definition isActionTypeOf (action : Action) (component : ActionParserComponent)
  : bool :=
  ComponentKey_eqb (key action) (componentKey component).

(** ** MOVE_COMPONENT *)

(** [/^go (north|south|east|west)$/i] *)
Definition MOVE_COMPONENT_pattern : re :=
  seq [lit_i "go "; alt_i ["north"; "south"; "east"; "west"]].

(** The pattern is anchored at both ends and its group follows the three
    characters of [go ], so [matches[1]] is the rest of the text. *)
Definition MOVE_COMPONENT_parse (text : string) (actor : loc) (timestamp : number)
  : Outcome MoveAction :=
  if negb (RegExp_test MOVE_COMPONENT_pattern text) then
    Throw ("Unable to parse MoveAction: " ++ text)
  else
    let dir := toLowerCase (substring 3 (String.length text - 3) text) in
    if String.eqb dir "north" then
      Ok (mkMoveAction actor timestamp (Fin (-1)) (Fin 0) Move)
    else if String.eqb dir "south" then
      Ok (mkMoveAction actor timestamp (Fin 1) (Fin 0) Move)
    else if String.eqb dir "west" then
      Ok (mkMoveAction actor timestamp (Fin 0) (Fin (-1)) Move)
    else if String.eqb dir "east" then
      Ok (mkMoveAction actor timestamp (Fin 0) (Fin 1) Move)
    else
      Throw ("Unknown direction: " ++ dir).

Definition MOVE_COMPONENT_validate (move : MoveAction) (game : World)
  : Outcome ValidationResult :=
  let actor := animals game (move_actor move) in
  let newPos := mkPosition (num_add (row actor) (offsetRow move))
                           (num_add (col actor) (offsetCol move)) in
  if negb (Map_isWithinMap (map game) newPos) then
    Ok (invalid "Out of bounds movement!")
  else if negb (Cell_isRoom (Map_getCell (map game) newPos)) then
    Ok (invalid "Desired location is not a room!")
  else
    Ok valid.

Definition MOVE_COMPONENT_perform (move : MoveAction) (log : list string)
  : M PerformResult :=
  actor <- readAnimal (move_actor move) ;;
  let oldPos := mkPosition (row actor) (col actor) in
  let newPos := mkPosition (num_add (prow oldPos) (offsetRow move))
                           (num_add (pcol oldPos) (offsetCol move)) in
  updateAnimal (move_actor move) (fun a => moveEntity a newPos) ;;;
  actor <- readAnimal (move_actor move) ;;
  match playerId actor with
  | Some pid =>
      game <- getWorld ;;
      match Game_getPlayer game pid with
      | None => throw ("Tried to move a non-present player! Id: " ++ pid)
      | Some player =>
          let log := push log (name player ++ " from " ++ JSON_stringify oldPos
                                 ++ " to " ++ JSON_stringify newPos) in
          let newRoom := Map_getCell (map game) newPos in
          let messages :=
            [Messaging_createGameMessage "You moved!" [player];
             Messaging_createGameMessage (describeRoom newRoom (map game)) [player]] in
          playerCharacter <- readAnimal (character player) ;;
          (if Inventory_hasItem (inventory playerCharacter) "Map" then
             updateAnimal (character player)
               (fun c => with_charMap c
                           (reveal (charMap c) (Map_getCell (map game) newPos)))
           else ret tt) ;;;
          ret (mkPerformResult log messages)
      end
  | None => ret (mkPerformResult log [])
  end.

Definition MOVE_COMPONENT : ActionParserComponent :=
  mkComponent MOVE_COMPONENT_pattern Move.

(** ** PASS_COMPONENT *)

(** [/^pass$/i] *)
Definition PASS_COMPONENT_pattern : re := lit_i "pass".

Definition PASS_COMPONENT_parse (_text : string) (actor : loc) (timestamp : number)
  : Action :=
  mkAction actor timestamp Pass.

(** [Boolean(passAction)] is true of every object. *)
Definition PASS_COMPONENT_validate (passAction : Action) (_game : World)
  : Outcome ValidationResult :=
  Ok (mkValidationResult true None).

Definition PASS_COMPONENT_perform (passAction : Action) (log : list string)
  : M PerformResult :=
  self <- readAnimal (actor passAction) ;;
  match playerId self with
  | Some pid =>
      game <- getWorld ;;
      match Game_getPlayer game pid with
      | Some player =>
          ret (mkPerformResult log
                 [Messaging_createGameMessage "You performed no action." [player]])
      | None =>
          throw ("A non-present player tried to perform a pass action! Id: " ++ pid)
      end
  | None => ret (mkPerformResult log [])
  end.

Definition PASS_COMPONENT : ActionParserComponent :=
  mkComponent PASS_COMPONENT_pattern Pass.

(** ** REST_COMPONENT *)

(** [/^rest$/i] *)
Definition REST_COMPONENT_pattern : re := lit_i "rest".

Definition REST_COMPONENT_parse (_text : string) (actor : loc) (timestamp : number)
  : Action :=
  mkAction actor timestamp Rest.

Definition REST_COMPONENT_validate (restAction : Action) (game : World)
  : Outcome ValidationResult :=
  let self := animals game (actor restAction) in
  if Character_isPlayerCharacter self then
    match Map_getCell (map game) (position_of self) with
    | RoomCell currCell =>
        if hasCamp currCell then Ok valid
        else Ok (invalid "Cannot rest without camp setup!")
    | _ => Throw "Expected player to be in room!"
    end
  else Ok valid.

Definition REST_COMPONENT_perform (restAction : Action) (log : list string)
  : M PerformResult :=
  self <- readAnimal (actor restAction) ;;
  match playerId self with
  | Some pid =>
      let wasExhausted := Character_meterIsActive (exhaustion (effects self)) in
      updateAnimal (actor restAction)
        (fun a => with_effects a
           (with_exhaustion (effects a)
              (with_current (exhaustion (effects a))
                            (maximum (exhaustion (effects a)))))) ;;;
      game <- getWorld ;;
      match Game_getPlayer game pid with
      | None =>
          throw ("Tried to perform a RestAction with a non-present player! Id: " ++ pid)
      | Some player =>
          if wasExhausted then
            ret (mkPerformResult log
                   [Messaging_createGameMessage
                      "You rested at the camp and no longer feel exhausted."
                      [player]])
          else
            ret (mkPerformResult log
                   [Messaging_createGameMessage "You rested at the camp." [player]])
      end
  | None => ret (mkPerformResult log [])
  end.

Definition REST_COMPONENT : ActionParserComponent :=
  mkComponent REST_COMPONENT_pattern Rest.

(** The animal after the assignment
    [actor.effects.exhaustion.current = actor.effects.exhaustion.maximum]. *)
Definition rested (a : Animal) : Animal :=
  with_effects a
    (with_exhaustion (effects a)
       (with_current (exhaustion (effects a)) (maximum (exhaustion (effects a))))).

(** ** ATTACK_COMPONENT *)

(** [^attack (\w+) (names) (\d+)$], flag [i], with the names of
    [Weapon.namesForAttacking]. *)
Definition ATTACK_COMPONENT_pattern : re :=
  seq [lit_i "attack "; plus re_w; lit_i " "; alt_i Weapon_namesForAttacking;
       lit_i " "; plus re_d].

(** The first playing participant whose name the fragment approximates:
    [_.find(game.players, player => isPlaying(player) &&
    isApproximateSubstring(attackAction.targetName, player.name))]. *)
Definition findTargetPlayer (fragment : string) (game : World) : option Player :=
  find (fun player =>
          isPlaying (animals game) player
          && isApproximateSubstring fragment (name player))
       (players game).

(** The weapon stack both [validate] and [perform] resolve; [None] is
    [undefined], a TypeError at its first use. *)
Definition resolveWeaponStack (attackAction : AttackAction) (inv : Inventory)
  : option ItemStack :=
  if String.eqb (weaponName attackAction) "Fist" then
    Some (Item_createItemStack Weapon_FIST (Fin 1) (Fin 1))
  else Inventory_getItem inv (weaponName attackAction).

Definition TypeError_undefined (what : string) : string :=
  "TypeError: " ++ what ++ " is undefined".

Definition ATTACK_COMPONENT_validate (attackAction : AttackAction) (game : World)
  : Outcome ValidationResult :=
  let actor := animals game (attack_actor attackAction) in
  let inventory := inventory actor in
  if negb (String.eqb (weaponName attackAction) "Fist")
     && negb (Inventory_hasItem inventory (weaponName attackAction)) then
    Ok (invalid ("Missing " ++ weaponName attackAction ++ " in inventory!"))
  else if negb (isFinite (times attackAction))
          || num_leb (times attackAction) (Fin 0) then
    Ok (invalid ("Bad number of times attacking ("
                 ++ number_toString (times attackAction) ++ ")!"))
  else
    let weaponStack := resolveWeaponStack attackAction inventory in
    match findTargetPlayer (targetName attackAction) game with
    | None =>
        Ok (invalid ("No player with name '" ++ targetName attackAction ++ "'!"))
    | Some targetPlayer =>
        let target := animals game (character targetPlayer) in
        let actualDistance :=
          Cell_cardinalPositionDistance
            (Map_getCell (map game) (position_of actor))
            (Map_getCell (map game) (position_of target)) in
        match weaponStack with
        | None => Throw (TypeError_undefined "weaponStack")
        | Some weaponStack =>
            if num_gtb actualDistance (item_range (item weaponStack)) then
              Ok (invalid (name targetPlayer ++ " is out of "
                           ++ item_name (item weaponStack) ++ "'s attack range!"))
            else if num_eqb (row target) (row actor)
                    || num_eqb (col target) (col actor) then
              let cellsInBetween :=
                List.map (fun pos => Map_getCell (map game) pos)
                  (Cell_getPositionsBetween (position_of target) (position_of actor)) in
              if existsb Cell_isBarrier cellsInBetween then
                Ok (invalid "Your shot is obstructed by a barrier!")
              else
                match item weaponStack with
                | Gun gunName _ _ _ bullet =>
                    if Inventory_hasItem inventory bullet then
                      match Inventory_getItem inventory bullet with
                      | None => Throw (TypeError_undefined "bulletStack")
                      | Some bulletStack =>
                          if num_ltb (stackAmount bulletStack) (times attackAction) then
                            Ok (invalid
                                  ("You cannot shoot "
                                   ++ number_toString (times attackAction)
                                   ++ " time(s) because you only have "
                                   ++ number_toString (stackAmount bulletStack)
                                   ++ " bullet(s)!"))
                          else Ok valid
                      end
                    else
                      Ok (invalid ("You don't have " ++ bullet ++ "s for your "
                                   ++ gunName ++ "!"))
                | _ => Ok valid
                end
            else
              Ok (invalid "You can only shoot in straight lines!")
        end
    end.

(** [accuracyPercentage]: the gun's accuracy, 100 for any other weapon. *)
Definition accuracyPercentage (weapon : Item) : number :=
  match weapon with
  | Gun _ _ _ accuracy _ => accuracy
  | _ => Fin 100
  end.

(** [Math.floor(attackAction.times * accuracyPercentage / 100.0)] *)
Definition actualTimesAttacked (attackAction : AttackAction) (weapon : Item)
  : number :=
  Math_floor_div (num_mul (times attackAction) (accuracyPercentage weapon)) 100.

(** The three changes [perform] makes to an animal. *)
Definition takeDamage (totalDamage : number) (t : Animal) : Animal :=
  with_stats t
    (with_health (stats t)
       (Math_max (Fin 0) (num_sub (health (stats t)) totalDamage))).

Definition loseStrength (x : number) (a : Animal) : Animal :=
  with_stats a (with_strength (stats a) (num_sub (strength (stats a)) x)).

Definition loseAgility (x : number) (a : Animal) : Animal :=
  with_stats a (with_agility (stats a) (num_sub (agility (stats a)) x)).

(** The actor's player, or the fault of the three places that ask for it. *)
Definition expectActorPlayer (pid : string) : M Player :=
  game <- getWorld ;;
  match Game_getPlayer game pid with
  | None => throw "Expected AttackAction actor to exist!"
  | Some actorPlayer => ret actorPlayer
  end.

Definition ATTACK_COMPONENT_perform (attackAction : AttackAction) (log : list string)
  : M PerformResult :=
  if negb (Weapon_stringIsAttackWeaponName (weaponName attackAction)) then
    throw "Expected `weaponName` to be an attack weapon name!"
  else
    actor <- readAnimal (attack_actor attackAction) ;;
    match resolveWeaponStack attackAction (inventory actor) with
    | None => throw (TypeError_undefined "weaponStack")
    | Some weaponStack =>
        let weapon := item weaponStack in
        let actualTimes := actualTimesAttacked attackAction weapon in
        game <- getWorld ;;
        match findTargetPlayer (targetName attackAction) game with
        | None =>
            throw ("Expected target player " ++ dquote ++ targetName attackAction
                   ++ dquote ++ " to exist!")
        | Some targetPlayer =>
            (* Do the damage to the target *)
            let totalDamage := num_mul actualTimes (item_damageAmount weapon) in
            updateAnimal (character targetPlayer) (takeDamage totalDamage) ;;;
            actor <- readAnimal (attack_actor attackAction) ;;
            messages <-
              match playerId actor with
              | Some pid =>
                  actorPlayer <- expectActorPlayer pid ;;
                  ret [Messaging_createGameMessage
                         ("You attacked " ++ name targetPlayer ++ " "
                          ++ number_toString actualTimes
                          ++ " time(s) for a total of "
                          ++ number_toString totalDamage ++ " damage!")
                         [actorPlayer]]
              | None => ret []
              end ;;
            attackerName <-
              match playerId actor with
              | Some pid =>
                  actorPlayer <- expectActorPlayer pid ;;
                  ret (name actorPlayer)
              | None => throw "Expected attacker to be a player!"
              end ;;
            let messages :=
              push messages
                (Messaging_createGameMessage
                   (attackerName ++ " attacked you for "
                    ++ number_toString totalDamage ++ " damage!")
                   [targetPlayer]) in
            target <- readAnimal (character targetPlayer) ;;
            messages <-
              (if Animal_isDead target then
                 messages <-
                   match playerId actor with
                   | Some pid =>
                       actorPlayer <- expectActorPlayer pid ;;
                       ret (push messages
                              (Messaging_createGameMessage
                                 ("You killed " ++ name targetPlayer ++ "!")
                                 [actorPlayer]))
                   | None => ret messages
                   end ;;
                 ret (push messages
                        (Messaging_createGameMessage
                           ("You were killed by " ++ attackerName)
                           [targetPlayer]))
               else ret messages) ;;
            (* Now either make the attacker tired or take away their used bullets *)
            match weapon with
            | Gun _ _ _ _ bullet =>
                actor <- readAnimal (attack_actor attackAction) ;;
                match Inventory_removeFromInventory (inventory actor) bullet
                        (times attackAction) with
                | Throw msg => throw msg
                | Ok (newInventory, _) =>
                    updateAnimal (attack_actor attackAction)
                      (fun a => with_inventory a newInventory)
                end
            | _ =>
                updateAnimal (attack_actor attackAction) (loseStrength actualTimes) ;;;
                updateAnimal (attack_actor attackAction)
                  (loseAgility (times attackAction))
            end ;;;
            ret (mkPerformResult log messages)
        end
    end.

Definition ATTACK_COMPONENT : ActionParserComponent :=
  mkComponent ATTACK_COMPONENT_pattern Attack.

(** ** INGEST_COMPONENT *)

(** [^(eat|consume|ingest|use|drink|quaff) (names)$], flag [i], with the
    names of [Ingestible.names]. *)
Definition INGEST_COMPONENT_pattern : re :=
  seq [alt_i ["eat"; "consume"; "ingest"; "use"; "drink"; "quaff"];
       lit_i " "; alt_i Ingestible_names].

Definition INGEST_COMPONENT_validate (ingestAction : IngestAction) (game : World)
  : Outcome ValidationResult :=
  let inventory := inventory (animals game (ingest_actor ingestAction)) in
  if Inventory_hasItem inventory (ingest_itemName ingestAction) then
    Ok valid
  else
    Ok (invalid ("Missing " ++ ingest_itemName ingestAction ++ " in inventory!")).

(** The effects of an ingestible on a player's character; the log and the
    messages grow along the way. *)
Definition INGEST_applyEffects (self : loc) (player : Player) (props : Ingestible)
  (log : list string) : M PerformResult :=
  let messages : list Message := [] in
  actor <- readAnimal self ;;
  out <-
    (if curesPoisoning props && isActive (poison (effects actor)) then
       updateAnimal self
         (fun a => with_effects a
            (with_poison (effects a) (with_isActive (poison (effects a)) false))) ;;;
       ret (push log (name player ++ " poison removed"),
            push messages
              (Messaging_createGameMessage "You have been cured of poisoning!"
                 [player]))
     else ret (log, messages)) ;;
  let '(log, messages) := out in
  out <-
    (if isPoisoned props then
       updateAnimal self
         (fun a => with_effects a
            (with_poison (effects a) (with_isActive (poison (effects a)) true))) ;;;
       ret (push log (name player ++ " was poisoned"),
            push messages
              (Messaging_createGameMessage "You have been poisoned!" [player]))
     else ret (log, messages)) ;;
  let '(log, messages) := out in
  out <-
    (if isAddictive props then
       characterBecomesAddicted <- rng_pickone ;;
       if (characterBecomesAddicted : bool) then
         updateAnimal self
           (fun a => with_effects a
              (with_addiction (effects a)
                 (with_isActive (addiction (effects a)) true))) ;;;
         ret (push log (name player ++ " became addicted"),
              push messages
                (Messaging_createGameMessage "You have become addicted!" [player]))
       else ret (log, messages)
     else ret (log, messages)) ;;
  let '(log, messages) := out in
  (if givesImmortality props then
     updateAnimal self
       (fun a => with_effects a
          (with_immortality (effects a)
             (with_isActive (immortality (effects a)) true)))
   else ret tt) ;;;
  updateAnimal self
    (fun a => with_effects a
       (with_addiction (effects a)
          (with_current (addiction (effects a))
             (Character_updateMeterCurrentValue (addiction (effects a))
                (addictionRelief props))))) ;;;
  updateAnimal self
    (fun a => with_effects a
       (with_exhaustion (effects a)
          (with_current (exhaustion (effects a))
             (Character_updateMeterCurrentValue (exhaustion (effects a))
                (exhaustionRelief props))))) ;;;
  updateAnimal self
    (fun a => with_effects a
       (with_hunger (effects a)
          (with_current (hunger (effects a))
             (Character_updateMeterCurrentValue (hunger (effects a))
                (hungerRelief props))))) ;;;
  ret (mkPerformResult log messages).

Definition INGEST_COMPONENT_perform (ingestAction : IngestAction) (log : list string)
  : M PerformResult :=
  let self := ingest_actor ingestAction in
  actor <- readAnimal self ;;
  (* first remove a single item from the item stack in the inventory *)
  match Inventory_removeFromInventory (inventory actor)
          (ingest_itemName ingestAction) (Fin 1) with
  | Throw msg => throw msg
  | Ok (newInventory, itemStack) =>
      updateAnimal self (fun a => with_inventory a newInventory) ;;;
      match item itemStack with
      | IngestibleItem _ props =>
          (* then apply the item's stats to the actor *)
          updateAnimal self
            (fun a => with_stats a (Stats_changeStats (stats a) (ing_stats props))) ;;;
          actor <- readAnimal self ;;
          match playerId actor with
          | Some pid =>
              game <- getWorld ;;
              match Game_getPlayer game pid with
              | None =>
                  throw ("Tried to perform an IngestAction with a non-present player! Id: "
                         ++ pid)
              | Some player => INGEST_applyEffects self player props log
              end
          | None => ret (mkPerformResult log [])
          end
      | other =>
          throw ("Tried to ingest an item that is not ingestible: '"
                 ++ item_name other ++ "'")
      end
  end.

Definition INGEST_COMPONENT : ActionParserComponent :=
  mkComponent INGEST_COMPONENT_pattern Ingest.

(** ** PICKUP_ACTION *)

(** [^(pick up|get|grab)(\s+(\d+))?\s+(names)$], flag [i], with the names
    of [itemNames]. *)
Definition PICKUP_ACTION_pattern : re :=
  seq [alt_i ["pick up"; "get"; "grab"]; opt (Cat (plus re_s) (plus re_d));
       plus re_s; alt_i itemNames].

(** The checks of [validate] once the amount to pick up is known.
    [stackToPickUp] and [playerStack] carry the [!] assertion of the
    source: a missing stack is a TypeError at its first use. *)
Definition PICKUP_ACTION_checkAmount (pickupAction : ItemTransaction)
  (inv : Inventory) (stackToPickUp : option ItemStack) (amountToPickUp : number)
  : Outcome ValidationResult :=
  match stackToPickUp with
  | None => Throw (TypeError_undefined "stackToPickUp")
  | Some stackToPickUp =>
      if num_ltb (stackAmount stackToPickUp) amountToPickUp then
        Ok (invalid ("There is only " ++ number_toString (stackAmount stackToPickUp)
                     ++ " " ++ item_name (item stackToPickUp) ++ "(s) in the room!"))
      else if Inventory_inventoryIsFull inv then
        if Inventory_hasItem inv (tx_itemName pickupAction) then
          match Inventory_getItem inv (tx_itemName pickupAction) with
          | None => Throw (TypeError_undefined "playerStack")
          | Some playerStack =>
              if Item_stackIsFull playerStack then
                Ok (invalid ("Your current stack of " ++ tx_itemName pickupAction
                             ++ " is full!"))
              else if num_gtb (num_add (stackAmount playerStack) amountToPickUp)
                              (maxStackAmount playerStack) then
                Ok (invalid ("You can only hold "
                             ++ number_toString (maxStackAmount playerStack) ++ " "
                             ++ item_name (item playerStack) ++ "(s)!"))
              else Ok valid
          end
        else Ok (invalid "You inventory is full!")
      else Ok valid
  end.

Definition PICKUP_ACTION_validate (pickupAction : ItemTransaction) (game : World)
  : Outcome ValidationResult :=
  let actor := animals game (tx_actor pickupAction) in
  match Map_getCell (map game) (position_of actor) with
  | RoomCell cell =>
      if negb (Item_hasItem (items cell) (tx_itemName pickupAction)) then
        Ok (invalid (tx_itemName pickupAction ++ " is not in the room!"))
      else
        let stackToPickUp := Item_getItem (items cell) (tx_itemName pickupAction) in
        match transactionAmount pickupAction with
        | Some amount =>
            if isFinite amount then
              if num_ltb amount (Fin 1) then
                Ok (invalid "Transaction amount must be positive!")
              else
                PICKUP_ACTION_checkAmount pickupAction (inventory actor)
                  stackToPickUp amount
            else Throw "Transaction amount exists but is not finite!"
        | None =>
            match stackToPickUp with
            | None => Throw (TypeError_undefined "stackToPickUp")
            | Some stack =>
                PICKUP_ACTION_checkAmount pickupAction (inventory actor)
                  stackToPickUp (stackAmount stack)
            end
        end
  | _ => Throw "Actor is not in a room!"
  end.

Definition PICKUP_ACTION : ActionParserComponent :=
  mkComponent PICKUP_ACTION_pattern Pickup.

(** ** DROP_ACTION *)

(** [drop(\s+(\d+))?\s+(names)], flag [i], without anchors. *)
Definition DROP_ACTION_pattern : re :=
  unanchored
    (seq [lit_i "drop"; opt (Cat (plus re_s) (plus re_d)); plus re_s;
          alt_i itemNames]).

(** [stackToDrop] carries the [!] assertion of the source: a missing stack
    is a TypeError at its first use, which is the comparison with the drop
    count. *)
Definition DROP_ACTION_validate (dropAction : ItemTransaction) (game : World)
  : Outcome ValidationResult :=
  let actor := animals game (tx_actor dropAction) in
  match Map_getCell (map game) (position_of actor) with
  | RoomCell _ =>
      if negb (Inventory_hasItem (inventory actor) (tx_itemName dropAction)) then
        Ok (invalid ("You do not have any " ++ tx_itemName dropAction
                     ++ " to drop!"))
      else
        let stackToDrop :=
          Inventory_getItem (inventory actor) (tx_itemName dropAction) in
        match transactionAmount dropAction with
        | Some amount =>
            if negb (isFinite amount) then
              Throw ("Drop count " ++ number_toString amount
                     ++ " exists but is not finite")
            else if num_ltb amount (Fin 1) then
              Ok (invalid "Drop count must be positive!")
            else
              match stackToDrop with
              | None => Throw (TypeError_undefined "stackToDrop")
              | Some stackToDrop =>
                  if num_gtb amount (stackAmount stackToDrop) then
                    Ok (invalid ("You cannot drop more than "
                                 ++ number_toString (stackAmount stackToDrop)
                                 ++ " " ++ item_name (item stackToDrop) ++ "!"))
                  else Ok valid
              end
        | None => Ok valid
        end
  | _ => Throw "Actor is not in a room!"
  end.

Definition DROP_ACTION : ActionParserComponent :=
  mkComponent DROP_ACTION_pattern Drop.

(** ** The registry *)

(** [PARSERS], with its keys in the order of the object literal, which is
    the order [_.find] visits them in. *)
Definition PARSERS : list (string * ActionParserComponent) :=
  [("Move", MOVE_COMPONENT);
   ("Pass", PASS_COMPONENT);
   ("Rest", REST_COMPONENT);
   ("Ingest", INGEST_COMPONENT);
   ("Attack", ATTACK_COMPONENT);
   ("Pickup", PICKUP_ACTION);
   ("Drop", DROP_ACTION)].

(** [PARSERS[key]] *)
Fixpoint property {A : Type} (obj : list (string * A)) (k : string) : option A :=
  match obj with
  | [] => None
  | (k', v) :: rest => if String.eqb k' k then Some v else property rest k
  end.

Definition getComponentByText (text : string) : option ActionParserComponent :=
  find (fun comp => RegExp_test (pattern comp) text) (List.map snd PARSERS).

Definition getComponentByKey (key : ComponentKey) : Outcome ActionParserComponent :=
  match property PARSERS (key_name key) with
  | Some component => Ok component
  | None => Throw ("Could not retrieve component for key: " ++ key_name key)
  end.

Definition isParsableAction (text : string) : bool :=
  match getComponentByText text with
  | Some _ => true
  | None => false
  end.

End Components.

(** ** A reference world

    One implementation of the collaborating modules, simple enough to
    evaluate by hand, on which the components are run on concrete inputs. *)
Module Reference.

#[global] Instance refMapTypes : MapTypes := {
  GameMap := Position -> Cell;
  CharacterMap := list Cell
}.

Definition hasName (n : ItemName) (s : ItemStack) : bool :=
  String.eqb (item_name (item s)) n.

Definition withAmount (s : ItemStack) (amount : number) : ItemStack :=
  mkItemStack (item s) amount (maxStackAmount s).

(** Takes [amount] out of the first stack of the item; a stack left with
    nothing is dropped. *)
Fixpoint removeFromStacks (stacks : list ItemStack) (n : ItemName) (amount : number)
  : option (list ItemStack * ItemStack) :=
  match stacks with
  | [] => None
  | s :: rest =>
      if hasName n s then
        let left := num_sub (stackAmount s) amount in
        Some (if num_leb left (Fin 0) then rest else withAmount s left :: rest,
              withAmount s amount)
      else
        match removeFromStacks rest n amount with
        | Some (rest', taken) => Some (s :: rest', taken)
        | None => None
        end
  end.

Definition removeFromInventory (inv : Inventory) (n : ItemName) (amount : number)
  : Outcome (Inventory * ItemStack) :=
  match removeFromStacks (itemStacks inv) n amount with
  | Some (stacks, taken) => Ok (mkInventory stacks, taken)
  | None => Throw ("Missing " ++ n ++ " in inventory!")
  end.

Definition cellPosition (c : Cell) : Position :=
  match c with
  | RoomCell r => mkPosition (room_row r) (room_col r)
  | BarrierCell p | OtherCell p => p
  end.

Definition distance (a b : number) : number :=
  match a, b with
  | Fin x, Fin y => Fin (Z.abs (x - y))
  | _, _ => NaN
  end.

(** The integers strictly between two integers. *)
Definition between (x y : Z) : list Z :=
  List.map (fun k => Z.min x y + 1 + Z.of_nat k)
           (List.seq 0 (Z.to_nat (Z.abs (x - y) - 1))).

Definition positionsBetween (p q : Position) : list Position :=
  match prow p, pcol p, prow q, pcol q with
  | Fin r1, Fin c1, Fin r2, Fin c2 =>
      if r1 =? r2 then List.map (fun c => mkPosition (Fin r1) (Fin c)) (between c1 c2)
      else if c1 =? c2 then List.map (fun r => mkPosition (Fin r) (Fin c1)) (between r1 r2)
      else []
  | _, _, _, _ => []
  end.

Definition addStats (s d : Stats) : Stats :=
  mkStats (num_add (health s) (health d))
          (num_add (intelligence s) (intelligence d))
          (num_add (strength s) (strength d))
          (num_add (agility s) (agility d)).

#[global] Instance refCollaborators : Collaborators := {
  isApproximateSubstring fragment full :=
    String.prefix (toLowerCase fragment) (toLowerCase full);
  isPlaying store player :=
    num_ltb (Fin 0) (health (stats (store (character player))));
  Game_getPlayer game pid :=
    find (fun p => String.eqb (id p) pid) (players game);
  Character_meterIsActive := isActive;
  Character_updateMeterCurrentValue m relief :=
    Math_max (Fin 0) (num_sub (current m) relief);
  Animal_isDead a := num_leb (health (stats a)) (Fin 0);
  moveEntity a p :=
    mkAnimal (prow p) (pcol p) (stats a) (inventory a) (playerId a) (effects a)
             (charMap a);
  Stats_changeStats := addStats;
  Map_isWithinMap _ p := isFinite (prow p) && isFinite (pcol p);
  Map_getCell m p := m p;
  Cell_cardinalPositionDistance a b :=
    num_add (distance (prow (cellPosition a)) (prow (cellPosition b)))
            (distance (pcol (cellPosition a)) (pcol (cellPosition b)));
  Cell_getPositionsBetween := positionsBetween;
  describeRoom _ _ := "You are in a room.";
  reveal m c := c :: m;
  Inventory_hasItem inv n := existsb (hasName n) (itemStacks inv);
  Inventory_getItem inv n := find (hasName n) (itemStacks inv);
  Inventory_removeFromInventory := removeFromInventory;
  Inventory_inventoryIsFull inv := Nat.leb 3 (List.length (itemStacks inv));
  Item_hasItem stacks n := existsb (hasName n) stacks;
  Item_getItem stacks n := find (hasName n) stacks;
  Item_stackIsFull s := num_leb (maxStackAmount s) (stackAmount s);
  Weapon_stringIsAttackWeaponName s :=
    existsb (String.eqb s) ["Fist"; "Knife"; "Rifle"];
  Weapon_namesForAttacking := ["Fist"; "Knife"; "Rifle"];
  Weapon_FIST_range := Fin 0;
  Weapon_FIST_damageAmount := Fin 1;
  Ingestible_names := ["Stew"; "Water"];
  itemNames := ["Knife"; "Rifle"; "Rifle Bullet"; "Stew"; "Water"; "Map"]
}.

(** Every cell is a room with a camp, holding a stack of fifteen bullets
    and a pot of stew. *)
Definition KNIFE : Item := MeleeWeapon "Knife" (Fin 0) (Fin 3).
Definition RIFLE : Item := Gun "Rifle" (Fin 5) (Fin 4) (Fin 50) "Rifle Bullet".
Definition BULLET : Item := PlainItem "Rifle Bullet".
Definition STEW : Item :=
  IngestibleItem "Stew"
    (mkIngestible (mkStats (Fin 2) (Fin 0) (Fin 1) (Fin 0))
                  false false false false (Fin 0) (Fin 0) (Fin 5)).

Definition openField : GameMap :=
  fun p => RoomCell (mkRoom (prow p) (pcol p)
                            [mkItemStack BULLET (Fin 15) (Fin 20);
                             mkItemStack STEW (Fin 1) (Fin 5)]
                            true).

Definition noMeter : Meter := mkMeter false (Fin 0) (Fin 10).

Definition tired : Meter := mkMeter true (Fin 3) (Fin 10).

Definition someEffects : Effects := mkEffects noMeter noMeter tired noMeter noMeter.

Definition someStats : Stats := mkStats (Fin 10) (Fin 5) (Fin 7) (Fin 6).

(** A character of a player, or an animal of the world when [pid] is
    [None], standing at the origin. *)
Definition animalWith (pid : option string) (stacks : list ItemStack) : Animal :=
  mkAnimal (Fin 0) (Fin 0) someStats (mkInventory stacks) pid someEffects [].

(** Two players with the same name, as in the game's own tests, and
    animals that belong to no player.  Object 0 is the first player's
    character, object 1 the second's, object 2 a stray animal and every
    other object a wolf. *)
Definition baz1 : Player := mkPlayer "bar" "Baz" 0%nat.
Definition baz2 : Player := mkPlayer "baz" "Baz" 1%nat.

Definition armed : list ItemStack :=
  [mkItemStack RIFLE (Fin 1) (Fin 1);
   mkItemStack BULLET (Fin 10) (Fin 20);
   mkItemStack KNIFE (Fin 1) (Fin 1)].

(** A plain item under the name of an ingestible. *)
Definition DYED_WATER : Item := PlainItem "Water".

Definition store (l : loc) : Animal :=
  match l with
  | O => animalWith (Some "bar") armed
  | S O => animalWith (Some "baz") [mkItemStack RIFLE (Fin 1) (Fin 1);
                                     mkItemStack BULLET (Fin 3) (Fin 5)]
  | S (S O) => animalWith None [mkItemStack DYED_WATER (Fin 1) (Fin 5)]
  | _ => animalWith None [mkItemStack KNIFE (Fin 1) (Fin 1)]
  end.

Definition world : World := mkWorld store [baz1; baz2] openField (fun _ => true) 0%nat.

End Reference.

(** A second world for the components that eat and drop: the first
    player's character is poisoned and carries two flasks of a brew that
    cures poisoning, is itself poisoned and is addictive; object 3 is a
    goat, no player's character, that carries a pot of stew. *)
Module Kitchen.

Definition BREW : Item :=
  IngestibleItem "Water"
    (mkIngestible (mkStats (Fin 1) (Fin 0) (Fin 0) (Fin 0))
                  true true true false (Fin 1) (Fin 2) (Fin 3)).

Definition poisoned : Effects :=
  mkEffects (mkMeter true (Fin 4) (Fin 10)) Reference.noMeter Reference.tired
            Reference.noMeter Reference.noMeter.

Definition store (l : loc) : Animal :=
  match l with
  | O => mkAnimal (Fin 0) (Fin 0) Reference.someStats
           (mkInventory [mkItemStack BREW (Fin 2) (Fin 5)])
           (Some "bar") poisoned []
  | S (S (S O)) =>
      Reference.animalWith None [mkItemStack Reference.STEW (Fin 1) (Fin 5)]
  | _ => Reference.store l
  end.

Definition world : World :=
  mkWorld store [Reference.baz1; Reference.baz2] Reference.openField
          (fun _ => true) 0%nat.

End Kitchen.

(** * Theorems *)

(** ** Numbers *)

(** Integers up to 2^53 in magnitude are doubles. *)
Lemma nearest_double_small (m : Z) : 0 <= m <= 2 ^ 53 -> nearest_double m = m.
Proof.
  intros Hm. unfold nearest_double.
  destruct (Z.eq_dec m (2 ^ 53)) as [-> | Hne]; [reflexivity |].
  assert (Hlog : Z.log2 m < 53).
  { destruct (Z.eq_dec m 0) as [-> | Hpos]; [reflexivity |].
    apply Z.log2_lt_pow2; lia. }
  destruct (Z.leb_spec (Z.log2 m - 52) 0); [reflexivity | lia].
Qed.

Lemma double_of_Z_small (z : Z) : Z.abs z <= 2 ^ 53 -> double_of_Z z = Fin z.
Proof.
  intros Hz. unfold double_of_Z.
  rewrite nearest_double_small by lia.
  destruct (Z.leb_spec overflow_bound (Z.abs z)) as [Hbig | _].
  - assert (2 ^ 53 < overflow_bound) by reflexivity. lia.
  - f_equal. rewrite Z.mul_comm. apply Z.abs_sgn.
Qed.

Lemma num_add_Fin (x y : Z) :
  Z.abs (x + y) <= 2 ^ 53 -> num_add (Fin x) (Fin y) = Fin (x + y).
Proof. apply double_of_Z_small. Qed.

Lemma num_sub_Fin (x y : Z) :
  Z.abs (x - y) <= 2 ^ 53 -> num_sub (Fin x) (Fin y) = Fin (x - y).
Proof. apply double_of_Z_small. Qed.

Lemma num_mul_Fin (x y : Z) :
  Z.abs (x * y) <= 2 ^ 53 -> num_mul (Fin x) (Fin y) = Fin (x * y).
Proof. apply double_of_Z_small. Qed.

(** Below 2^53 the rounding of the quotient by 100 never reaches the next
    integer: the doubles around the quotient are at most 1/64 apart, and
    the quotient is at least 1/100 away from any integer it is not. *)
Lemma floor_of_quotient_small (n : Z) (negative : bool) :
  0 < n <= 2 ^ 53 ->
  floor_of_quotient n 100 negative = (if negative then - n else n) / 100.
Proof.
  intros Hn. unfold floor_of_quotient.
  change (Z.log2 100 + 1) with 7. change (2 ^ 7) with 128.
  set (e := Z.log2 (n * 128 / 100) - 7 - 52).
  assert (He : e <= -6).
  { assert (Z.log2 (n * 128 / 100) < 54); [| subst e; lia].
    assert (Hq : n * 128 / 100 < 2 ^ 54).
    { apply Z.div_lt_upper_bound; [lia |].
      change (2 ^ 54) with (2 * 2 ^ 53). lia. }
    destruct (Z.eq_dec (n * 128 / 100) 0) as [-> | Hnz]; [reflexivity |].
    apply Z.log2_lt_pow2; [| exact Hq].
    pose proof (Z.div_pos (n * 128) 100). lia. }
  destruct (Z.ltb_spec e 0) as [_ |]; [| lia].
  set (E := 2 ^ (- e)).
  assert (HE : 64 <= E).
  { change 64 with (2 ^ 6). apply Z.pow_le_mono_r; lia. }
  pose proof (Z.div_mod (n * E) 100 ltac:(lia)) as Hdiv.
  pose proof (Z.mod_pos_bound (n * E) 100 ltac:(lia)) as Hr.
  set (q := n * E / 100) in *. set (r := (n * E) mod 100) in *.
  set (q' := if (100 <? 2 * r) || ((2 * r =? 100) && Z.odd q) then q + 1 else q).
  assert (Hq' : (q' = q /\ r <= 50) \/ (q' = q + 1 /\ 50 <= r)).
  { subst q'. destruct (Z.ltb_spec 100 (2 * r)); cbn [orb]; [right; lia |].
    destruct (Z.eqb_spec (2 * r) 100); cbn [andb]; [| left; lia].
    destruct (Z.odd q); [right | left]; lia. }
  clearbody q' q r E. clear e He.
  symmetry. destruct negative.
  - pose proof (Z.div_mod (- n) 100 ltac:(lia)) as Hk.
    pose proof (Z.mod_pos_bound (- n) 100 ltac:(lia)) as Hj.
    apply Z.div_unique with (r := - q' - (- n / 100) * E); nia.
  - pose proof (Z.div_mod n 100 ltac:(lia)) as Hk.
    pose proof (Z.mod_pos_bound n 100 ltac:(lia)) as Hj.
    apply Z.div_unique with (r := q' - (n / 100) * E); nia.
Qed.

(** [Math.floor(x / 100)] is the floor of the exact quotient while [x] is
    within 2^53. *)
Lemma Math_floor_div_small (x : Z) :
  Z.abs x <= 2 ^ 53 -> Math_floor_div (Fin x) 100 = Fin (x / 100).
Proof.
  intros Hx. unfold Math_floor_div.
  destruct (Z.eqb_spec x 0) as [-> | Hnz]; [reflexivity |].
  rewrite floor_of_quotient_small by lia.
  assert (Hsame : (if x <? 0 then - Z.abs x else Z.abs x) = x)
    by (destruct (Z.ltb_spec x 0); lia).
  rewrite Hsame. apply double_of_Z_small.
  assert (- 2 ^ 53 <= x / 100 <= 2 ^ 53); [| lia].
  split.
  - apply Z.div_le_lower_bound; lia.
  - apply Z.div_le_upper_bound; lia.
Qed.

(** A strike count times the accuracy 100, divided by 100 again, is the
    strike count, for a count that is not finite and for a finite one whose
    hundredfold is within 2^53. *)
Lemma Math_floor_div_100 (n : number) :
  (forall z, n = Fin z -> Z.abs (z * 100) <= 2 ^ 53) ->
  Math_floor_div (num_mul n (Fin 100)) 100 = n.
Proof.
  intros Hbound. destruct n as [z | | |]; try reflexivity.
  specialize (Hbound z eq_refl).
  rewrite num_mul_Fin, Math_floor_div_small by assumption.
  f_equal. apply Z.div_mul. discriminate.
Qed.

(** Past 2^53 the product is rounded, and so is its hundredth; numbers
    from 10^21 are written with an exponent, and the digits of a double
    past 2^53 are the shortest that read back as it. *)
Example number_examples :
  num_mul (Fin 360287970189641) (Fin 100) = Fin 36028797018964096
  /\ Math_floor_div (Fin 36028797018964096) 100 = Fin 360287970189640
  /\ num_add (Fin (2 ^ 53)) (Fin 1) = Fin (2 ^ 53)
  /\ number_toString (Fin 360287970189640) = "360287970189640"
  /\ number_toString (Fin (2 ^ 64)) = "18446744073709552000"
  /\ number_toString (Fin (10 ^ 21)) = "1e+21"
  /\ number_toString (Fin (2 ^ 70)) = "1.1805916207174113e+21"
  /\ number_toString (Fin (- 12)) = "-12".
Proof. repeat split; vm_compute; reflexivity. Qed.

(** ** Regular expressions: what [RegExp_test] accepts is in the language *)

Lemma nullable_matches (r : re) :
  nullable r = true -> matches r EmptyString.
Proof.
  induction r as [| | p | r1 IH1 r2 IH2 | r1 IH1 r2 IH2 | r IH]; simpl; intros H.
  - discriminate.
  - constructor.
  - discriminate.
  - apply andb_true_iff in H as [H1 H2].
    change EmptyString with (EmptyString ++ EmptyString).
    constructor; auto.
  - apply orb_true_iff in H as [H | H];
      [apply M_AltL | apply M_AltR]; auto.
  - constructor.
Qed.

Lemma deriv_matches (c : ascii) (r : re) :
  forall s, matches (deriv c r) s -> matches r (String c s).
Proof.
  induction r as [| | p | r1 IH1 r2 IH2 | r1 IH1 r2 IH2 | r IH];
    simpl; intros s H.
  - inversion H.
  - inversion H.
  - destruct (p c) eqn:Hp; inversion H; subst. now constructor.
  - destruct (nullable r1) eqn:Hn.
    + inversion H as [| | | ? ? ? HL | ? ? ? HR | |]; subst.
      * inversion HL; subst.
        change (String c (s1 ++ s2)) with (String c s1 ++ s2).
        constructor; auto.
      * change (String c s) with (EmptyString ++ String c s).
        constructor; auto using nullable_matches.
    + inversion H; subst.
      change (String c (s1 ++ s2)) with (String c s1 ++ s2).
      constructor; auto.
  - inversion H; subst; [apply M_AltL | apply M_AltR]; auto.
  - inversion H; subst.
    change (String c (s1 ++ s2)) with (String c s1 ++ s2).
    constructor; auto.
Qed.

Lemma matches_Cat_inv (r1 r2 : re) (s : string) :
  matches (Cat r1 r2) s ->
  exists s1 s2, s = s1 ++ s2 /\ matches r1 s1 /\ matches r2 s2.
Proof. intros H. inversion H; subst. eauto. Qed.

Lemma matches_Alt_inv (r1 r2 : re) (s : string) :
  matches (Alt r1 r2) s -> matches r1 s \/ matches r2 s.
Proof. intros H. inversion H; subst; auto. Qed.

Lemma RegExp_test_sound (text : string) :
  forall r, RegExp_test r text = true -> matches r text.
Proof.
  induction text as [| c rest IH]; simpl; intros r H.
  - now apply nullable_matches.
  - now apply deriv_matches, IH.
Qed.

Lemma append_empty (s1 s2 : string) :
  s1 ++ s2 = EmptyString -> s1 = EmptyString /\ s2 = EmptyString.
Proof. destruct s1; simpl; [auto | discriminate]. Qed.

Lemma matches_nullable (r : re) (s : string) :
  matches r s -> s = EmptyString -> nullable r = true.
Proof.
  induction 1 as [| | r1 r2 s1 s2 _ IH1 _ IH2 | r1 r2 s0 _ IH | r1 r2 s0 _ IH | |];
    simpl; intros E; try discriminate; auto.
  - apply append_empty in E as [E1 E2]. now rewrite IH1, IH2.
  - now rewrite (IH E).
  - rewrite (IH E). apply orb_true_r.
Qed.

Lemma matches_deriv (r : re) (text : string) :
  matches r text ->
  forall c s, text = String c s -> matches (deriv c r) s.
Proof.
  induction 1 as [| p c0 Hp | r1 r2 s1 s2 H1 IH1 H2 IH2
                  | r1 r2 s0 H IH | r1 r2 s0 H IH
                  | | r1 s1 s2 H1 IH1 H2 IH2];
    simpl; intros c s E; try discriminate.
  - injection E as -> <-. rewrite Hp. constructor.
  - destruct s1 as [| c1 s1]; simpl in E.
    + rewrite (matches_nullable _ _ H1 eq_refl). apply M_AltR. auto.
    + injection E as -> <-.
      destruct (nullable r1); [apply M_AltL |]; constructor; auto.
  - apply M_AltL. auto.
  - apply M_AltR. auto.
  - destruct s1 as [| c1 s1]; simpl in E.
    + exact (IH2 _ _ E).
    + injection E as -> <-. constructor; auto.
Qed.

(** [RegExp_test] decides the language of the expression. *)
Lemma RegExp_test_complete (text : string) :
  forall r, matches r text -> RegExp_test r text = true.
Proof.
  induction text as [| c rest IH]; simpl; intros r H.
  - exact (matches_nullable _ _ H eq_refl).
  - apply IH. exact (matches_deriv _ _ H _ _ eq_refl).
Qed.

Lemma lower_canonicalize (c : ascii) :
  lower_ascii (canonicalize c) = lower_ascii c.
Proof.
  destruct c as [[] [] [] [] [] [] [] []]; vm_compute; reflexivity.
Qed.

Lemma chr_i_lower (x c : ascii) :
  Ascii.eqb (canonicalize c) (canonicalize x) = true ->
  lower_ascii c = lower_ascii x.
Proof.
  intros H. apply Ascii.eqb_eq in H.
  rewrite <- (lower_canonicalize c), <- (lower_canonicalize x).
  now rewrite H.
Qed.

(** A text that matches a literal under the [i] flag has the literal's
    length and its lower-case form. *)
Lemma lit_i_matches (x : string) :
  forall s, matches (lit_i x) s ->
            String.length s = String.length x /\ toLowerCase s = toLowerCase x.
Proof.
  induction x as [| a x IH]; simpl; intros s H.
  - inversion H; subst. now split.
  - inversion H as [| | ? ? s1 s2 H1 H2 | | | |]; subst.
    inversion H1; subst. simpl.
    destruct (IH _ H2) as [Hlen Hlow].
    split; [now rewrite Hlen |].
    rewrite Hlow. f_equal. now apply chr_i_lower.
Qed.

Lemma substring_all (s : string) : substring 0 (String.length s) s = s.
Proof.
  induction s as [| c s IH]; simpl; [reflexivity | now rewrite IH].
Qed.

Lemma substring_after_3 (s1 s2 : string) :
  String.length s1 = 3%nat ->
  substring 3 (String.length (s1 ++ s2) - 3) (s1 ++ s2) = s2.
Proof.
  destruct s1 as [| a [| b [| c [| d s1]]]]; try discriminate.
  intros _. simpl. rewrite Nat.sub_0_r. apply substring_all.
Qed.

(** ** Running the components *)

Ltac run_in H :=
  unfold bind, readAnimal, updateAnimal, getWorld, rng_pickone, ret, throw in H;
  simpl in H.

Ltac run :=
  unfold bind, readAnimal, updateAnimal, getWorld, rng_pickone, ret, throw;
  simpl.

(** Runs the code up to its next branch, leaving the named changes of the
    world folded. *)
Ltac steps :=
  cbv beta iota zeta
      delta [bind readAnimal updateAnimal getWorld rng_pickone ret throw].

Ltac steps_in H :=
  cbv beta iota zeta
      delta [bind readAnimal updateAnimal getWorld rng_pickone ret throw] in H.

Ltac is_branching t :=
  lazymatch t with
  | match _ with _ => _ end => idtac
  | ?f _ => is_branching f
  end.

(** Splits on the next thing the code branches on: a scrutinee that is
    not itself waiting for a branch to be taken. *)
Ltac branch :=
  rewrite ?Nat.eqb_refl;
  match goal with
  | |- context [match ?x with _ => _ end] =>
      tryif is_branching x then fail else (destruct x eqn:?; simpl)
  end.

(** Settles the comparisons of object identities met on the way. *)
Ltac same_object :=
  repeat match goal with
         | H : (?x =? ?x)%nat = false |- _ =>
             rewrite Nat.eqb_refl in H; discriminate H
         | H : (?x =? ?y)%nat = true |- _ =>
             apply Nat.eqb_eq in H; try rewrite H in *
         | H : (?x =? ?y)%nat = false, E : ?y = ?x |- _ =>
             rewrite E, Nat.eqb_refl in H; discriminate H
         end.

Section ComponentFacts.
Context `{C : Collaborators}.

Lemma row_with_charMap (a : Animal) (m : CharacterMap) :
  row (with_charMap a m) = row a /\ col (with_charMap a m) = col a.
Proof. now split. Qed.

(** The direction matched by the Move pattern, in lower case, is one of
    the four the parser knows. *)
Lemma MOVE_pattern_direction (text : string) :
  RegExp_test MOVE_COMPONENT_pattern text = true ->
  let dir := toLowerCase (substring 3 (String.length text - 3) text) in
  dir = "north" \/ dir = "south" \/ dir = "east" \/ dir = "west".
Proof.
  intros H. apply RegExp_test_sound in H.
  change MOVE_COMPONENT_pattern
    with (Cat (lit_i "go ")
              (Alt (lit_i "north")
                   (Alt (lit_i "south") (Alt (lit_i "east") (lit_i "west")))))
    in H.
  apply matches_Cat_inv in H as (s1 & s2 & -> & Hgo & Hdir).
  apply lit_i_matches in Hgo as [Hlen _].
  cbv zeta. rewrite (substring_after_3 _ _ Hlen).
  repeat (apply matches_Alt_inv in Hdir as [Hdir | Hdir]);
    apply lit_i_matches in Hdir as [_ Hdir]; rewrite Hdir; simpl; auto.
Qed.

End ComponentFacts.

(** C5. Every text matching the Move pattern parses to a Move action
    whose offset pair has exactly one non-zero component, which is -1 or
    1; and performing a Move action leaves the actor at (old row + offset
    row, old column + offset column), where [moveEntity] places an entity
    at the position it is given. *)
Theorem MOVE_unit_offset_and_new_position `{C : Collaborators}
  (text : string) (actor : loc) (timestamp : number)
  (move : MoveAction) (game : World) (log : list string)
  (Hmatch : RegExp_test MOVE_COMPONENT_pattern text = true)
  (Hentity : forall a p,
      row (moveEntity a p) = prow p /\ col (moveEntity a p) = pcol p) :
  (exists action,
      MOVE_COMPONENT_parse text actor timestamp = Ok action
      /\ ((offsetRow action = Fin 0
           /\ (offsetCol action = Fin (-1) \/ offsetCol action = Fin 1))
          \/ (offsetCol action = Fin 0
              /\ (offsetRow action = Fin (-1) \/ offsetRow action = Fin 1))))
  /\ (let before := animals game (move_actor move) in
      let after :=
        animals (snd (MOVE_COMPONENT_perform move log game)) (move_actor move) in
      row after = num_add (row before) (offsetRow move)
      /\ col after = num_add (col before) (offsetCol move)).
Proof.
  split.
  - unfold MOVE_COMPONENT_parse. rewrite Hmatch. simpl negb. cbv iota.
    destruct (MOVE_pattern_direction text Hmatch) as [H | [H | [H | H]]];
      rewrite H; simpl; eexists; (split; [reflexivity |]); simpl; auto.
  - cbv zeta. unfold MOVE_COMPONENT_perform. run.
    rewrite Nat.eqb_refl.
    destruct (Hentity (animals game (move_actor move))
                {| prow := num_add (row (animals game (move_actor move))) (offsetRow move);
                   pcol := num_add (col (animals game (move_actor move))) (offsetCol move) |})
      as [Hr Hc]; simpl in Hr, Hc.
    repeat branch; same_object; rewrite ?Nat.eqb_refl; simpl; auto.
Qed.

Lemma MOVE_unit_offset_and_new_position_witness :
  RegExp_test MOVE_COMPONENT_pattern "Go WEST" = true
  /\ MOVE_COMPONENT_parse "Go WEST" 0%nat (Fin 5)
     = Ok (mkMoveAction 0%nat (Fin 5) (Fin 0) (Fin (-1)) Move)
  /\ row (animals (snd (MOVE_COMPONENT_perform
                          (mkMoveAction 0%nat (Fin 5) (Fin 0) (Fin (-1)) Move)
                          [] Reference.world)) 0%nat) = Fin 0
  /\ col (animals (snd (MOVE_COMPONENT_perform
                          (mkMoveAction 0%nat (Fin 5) (Fin 0) (Fin (-1)) Move)
                          [] Reference.world)) 0%nat) = Fin (-1).
Proof.
  pose proof (MOVE_unit_offset_and_new_position
                "Go WEST" 0%nat (Fin 5)
                (mkMoveAction 0%nat (Fin 5) (Fin 0) (Fin (-1)) Move)
                Reference.world []
                eq_refl (fun a p => conj eq_refl eq_refl)) as [_ [Hr Hc]].
  split; [reflexivity |]. split; [reflexivity |].
  split; [exact Hr | exact Hc].
Defined.

(** C6. Every Pass action is accepted by [validate]; performing it leaves
    the whole world as it was, and its only output is the acknowledgment
    sent to the actor's player (a character whose player is not present is
    a fault, still without any change). *)
Theorem PASS_always_valid_and_changes_nothing `{C : Collaborators}
  (passAction : Action) (game : World) (log : list string) :
  PASS_COMPONENT_validate passAction game = Ok (mkValidationResult true None)
  /\ snd (PASS_COMPONENT_perform passAction log game) = game
  /\ fst (PASS_COMPONENT_perform passAction log game)
     = match playerId (animals game (actor passAction)) with
       | None => Ok (mkPerformResult log [])
       | Some pid =>
           match Game_getPlayer game pid with
           | Some player =>
               Ok (mkPerformResult log
                     [mkMessage Game "You performed no action." [player]])
           | None =>
               Throw ("A non-present player tried to perform a pass action! Id: "
                      ++ pid)
           end
       end.
Proof.
  split; [reflexivity |].
  unfold PASS_COMPONENT_perform. run.
  destruct (playerId (animals game (actor passAction))) as [pid |]; simpl;
    [destruct (Game_getPlayer game pid); simpl |]; auto.
Qed.

(** C2, as amended. Performing a Rest action of a player's character sets
    the character's exhaustion meter to its maximum and touches no other
    object; the player is told that they no longer feel exhausted when the
    meter was active before, and that they rested otherwise (a character
    whose player is not present is a fault).  For an actor that is not a
    player's character perform changes nothing and says nothing. *)
Theorem REST_restores_exhaustion_of_player_character `{C : Collaborators}
  (restAction : Action) (game : World) (log : list string) :
  let self := animals game (actor restAction) in
  let out := REST_COMPONENT_perform restAction log game in
  match playerId self with
  | Some pid =>
      let after := animals (snd out) (actor restAction) in
      current (exhaustion (effects after)) = maximum (exhaustion (effects self))
      /\ maximum (exhaustion (effects after)) = maximum (exhaustion (effects self))
      /\ (forall l, l <> actor restAction -> animals (snd out) l = animals game l)
      /\ match Game_getPlayer (snd out) pid with
         | Some player =>
             fst out
             = Ok (mkPerformResult log
                     [mkMessage Game
                        (if Character_meterIsActive (exhaustion (effects self))
                         then "You rested at the camp and no longer feel exhausted."
                         else "You rested at the camp.")
                        [player]])
         | None => exists msg, fst out = Throw msg
         end
  | None => out = (Ok (mkPerformResult log []), game)
  end.
Proof.
  cbv zeta. unfold REST_COMPONENT_perform. run.
  destruct (playerId (animals game (actor restAction))) as [pid |] eqn:Hpid;
    simpl; [| reflexivity].
  match goal with
  | |- context [Game_getPlayer ?w pid] => destruct (Game_getPlayer w pid) eqn:Hplayer
  end; simpl.
  - destruct (Character_meterIsActive _); simpl; rewrite Hplayer, Nat.eqb_refl;
      simpl; repeat split; auto;
      intros l Hl; apply Nat.eqb_neq in Hl; now rewrite Hl.
  - rewrite Hplayer, Nat.eqb_refl; simpl; repeat split; eauto.
    intros l Hl; apply Nat.eqb_neq in Hl; now rewrite Hl.
Qed.

(** C2 does not hold of every kind of actor: an animal that is no
    player's character rests, validly, and its exhaustion meter stays at 3
    of 10. *)
Lemma REST_non_player_is_not_restored :
  let restAction := mkAction 5%nat (Fin 0) Rest in
  let out := REST_COMPONENT_perform restAction [] Reference.world in
  playerId (animals Reference.world 5%nat) = None
  /\ REST_COMPONENT_validate restAction Reference.world = Ok valid
  /\ fst out = Ok (mkPerformResult [] [])
  /\ exhaustion (effects (animals Reference.world 5%nat)) = mkMeter true (Fin 3) (Fin 10)
  /\ exhaustion (effects (animals (snd out) 5%nat)) = mkMeter true (Fin 3) (Fin 10).
Proof. cbv zeta. repeat split. Qed.

(** C7. Ingest keeps the two tiers of errors apart.  [validate] always
    returns and never raises: a rejection with a reason exactly when the
    actor's inventory does not hold the named item, acceptance otherwise.
    [perform] raises a fault, and returns no rejection, whenever the item
    it removed from the inventory is not ingestible. *)
Theorem INGEST_rejection_is_data_and_non_ingestible_is_fault `{C : Collaborators}
  (ingestAction : IngestAction) (game : World) (log : list string) :
  (exists result,
      INGEST_COMPONENT_validate ingestAction game = Ok result
      /\ (isValid result = false
          <-> Inventory_hasItem
                (inventory (animals game (ingest_actor ingestAction)))
                (ingest_itemName ingestAction) = false)
      /\ (isValid result = false ->
          error result
          = Some ("Missing " ++ ingest_itemName ingestAction ++ " in inventory!"))
      /\ (isValid result = true -> result = valid))
  /\ (forall newInventory itemStack,
         Inventory_removeFromInventory
           (inventory (animals game (ingest_actor ingestAction)))
           (ingest_itemName ingestAction) (Fin 1)
         = Ok (newInventory, itemStack) ->
         Ingestible_itemIsIngestible (item itemStack) = false ->
         fst (INGEST_COMPONENT_perform ingestAction log game)
         = Throw ("Tried to ingest an item that is not ingestible: '"
                  ++ item_name (item itemStack) ++ "'")).
Proof.
  split.
  - unfold INGEST_COMPONENT_validate.
    destruct (Inventory_hasItem _ _); eexists; (split; [reflexivity |]);
      simpl; repeat split; try tauto; try discriminate; eauto.
  - intros newInventory itemStack Hremoved Hnot.
    unfold INGEST_COMPONENT_perform. run. rewrite Hremoved. simpl.
    destruct (item itemStack); try discriminate Hnot; reflexivity.
Qed.

Lemma INGEST_rejection_is_data_and_non_ingestible_is_fault_witness :
  (exists result,
      INGEST_COMPONENT_validate (mkIngestAction 2%nat (Fin 0) "Stew" Ingest)
        Reference.world = Ok result
      /\ isValid result = false
      /\ error result = Some "Missing Stew in inventory!")
  /\ INGEST_COMPONENT_validate (mkIngestAction 2%nat (Fin 0) "Water" Ingest)
       Reference.world = Ok valid
  /\ fst (INGEST_COMPONENT_perform (mkIngestAction 2%nat (Fin 0) "Water" Ingest)
            [] Reference.world)
     = Throw "Tried to ingest an item that is not ingestible: 'Water'".
Proof.
  split; [| split].
  - destruct (proj1 (INGEST_rejection_is_data_and_non_ingestible_is_fault
                       (mkIngestAction 2%nat (Fin 0) "Stew" Ingest)
                       Reference.world []))
      as (result & Hresult & Hiff & Hreason & _).
    exists result.
    assert (Hinvalid : isValid result = false)
      by (apply (proj2 Hiff); reflexivity).
    split; [exact Hresult |]. split; [exact Hinvalid |].
    exact (Hreason Hinvalid).
  - destruct (proj1 (INGEST_rejection_is_data_and_non_ingestible_is_fault
                       (mkIngestAction 2%nat (Fin 0) "Water" Ingest)
                       Reference.world []))
      as (result & Hresult & Hiff & _ & Hvalid).
    rewrite Hresult. f_equal. apply Hvalid.
    destruct (isValid result) eqn:E; [reflexivity |].
    pose proof (proj1 Hiff eq_refl) as Habsent. discriminate Habsent.
  - exact (proj2 (INGEST_rejection_is_data_and_non_ingestible_is_fault
                    (mkIngestAction 2%nat (Fin 0) "Water" Ingest)
                    Reference.world [])
             (mkInventory [])
             (mkItemStack Reference.DYED_WATER (Fin 1) (Fin 5))
             eq_refl eq_refl).
Defined.

(** C3, as amended. A Pickup with an explicit amount, by an actor who
    stands in a room and already holds a stack of the item that the amount
    would overflow, is rejected with a reason when the actor's inventory
    is full.  When the inventory is not full, [validate] does not look at
    the actor's stack: the pickup is accepted as soon as the room holds
    the amount. *)
Theorem PICKUP_overflow_is_checked_when_inventory_is_full `{C : Collaborators}
  (pickupAction : ItemTransaction) (game : World) (cell : Room) (amount : Z)
  (roomStack playerStack : ItemStack)
  (Hroom :
     Map_getCell (map game) (position_of (animals game (tx_actor pickupAction)))
     = RoomCell cell)
  (Hamount : transactionAmount pickupAction = Some (Fin amount))
  (HroomStack :
     Item_getItem (items cell) (tx_itemName pickupAction) = Some roomStack)
  (HplayerStack :
     Inventory_getItem (inventory (animals game (tx_actor pickupAction)))
       (tx_itemName pickupAction) = Some playerStack)
  (Hoverflow :
     num_gtb (num_add (stackAmount playerStack) (Fin amount))
             (maxStackAmount playerStack) = true) :
  (Inventory_inventoryIsFull (inventory (animals game (tx_actor pickupAction)))
   = true ->
   exists reason, PICKUP_ACTION_validate pickupAction game = Ok (invalid reason))
  /\ (Inventory_inventoryIsFull (inventory (animals game (tx_actor pickupAction)))
      = false ->
      Item_hasItem (items cell) (tx_itemName pickupAction) = true ->
      num_ltb (Fin amount) (Fin 1) = false ->
      num_ltb (stackAmount roomStack) (Fin amount) = false ->
      PICKUP_ACTION_validate pickupAction game = Ok valid).
Proof.
  unfold PICKUP_ACTION_validate, PICKUP_ACTION_checkAmount.
  rewrite Hroom, Hamount, HroomStack, HplayerStack. simpl isFinite. cbv iota.
  split.
  - intros Hfull. rewrite Hfull, Hoverflow.
    repeat branch; eauto.
  - intros Hfull Hhas Hpos Henough. rewrite Hfull, Hhas, Hpos, Henough.
    reflexivity.
Qed.

Lemma PICKUP_overflow_is_checked_when_inventory_is_full_witness :
  exists reason,
    PICKUP_ACTION_validate
      (mkItemTransaction 0%nat (Fin 0) "Rifle Bullet" (Some (Fin 11)) Pickup)
      Reference.world
    = Ok (invalid reason).
Proof.
  refine (proj1 (PICKUP_overflow_is_checked_when_inventory_is_full
                   (mkItemTransaction 0%nat (Fin 0) "Rifle Bullet"
                      (Some (Fin 11)) Pickup)
                   Reference.world
                   (mkRoom (Fin 0) (Fin 0)
                      [mkItemStack Reference.BULLET (Fin 15) (Fin 20);
                       mkItemStack Reference.STEW (Fin 1) (Fin 5)] true)
                   11
                   (mkItemStack Reference.BULLET (Fin 15) (Fin 20))
                   (mkItemStack Reference.BULLET (Fin 10) (Fin 20))
                   _ _ _ _ _) _); reflexivity.
Defined.

(** C3 does not hold when the inventory is not full: the second player
    holds 3 of at most 5 bullets and has a free slot; picking up 4 of the
    room's 15 would make 7, and [validate] accepts. *)
Lemma PICKUP_overflow_accepted_when_inventory_is_not_full :
  let pickupAction :=
    mkItemTransaction 1%nat (Fin 0) "Rifle Bullet" (Some (Fin 4)) Pickup in
  let inv := inventory (animals Reference.world 1%nat) in
  Inventory_getItem inv "Rifle Bullet"
  = Some (mkItemStack Reference.BULLET (Fin 3) (Fin 5))
  /\ num_gtb (num_add (Fin 3) (Fin 4)) (Fin 5) = true
  /\ Inventory_inventoryIsFull inv = false
  /\ PICKUP_ACTION_validate pickupAction Reference.world = Ok valid.
Proof. cbv zeta. repeat split. Qed.

(** C4, as amended. [validate] accepts an Attack only if at least one
    playing participant matches the target-name fragment; when none
    matches it returns a rejection with a reason.  When several match, the
    first of them in the order of [game.players] is the target: the
    verdict is the one [validate] gives when that participant is the only
    one in the game. *)
Theorem ATTACK_validate_takes_first_matching_participant `{C : Collaborators}
  (attackAction : AttackAction) (game : World) :
  (findTargetPlayer (targetName attackAction) game = None ->
   exists reason, ATTACK_COMPONENT_validate attackAction game = Ok (invalid reason))
  /\ (ATTACK_COMPONENT_validate attackAction game = Ok valid ->
      exists target,
        In target (players game)
        /\ isPlaying (animals game) target = true
        /\ isApproximateSubstring (targetName attackAction) (name target) = true)
  /\ (forall target,
        findTargetPlayer (targetName attackAction) game = Some target ->
        ATTACK_COMPONENT_validate attackAction game
        = ATTACK_COMPONENT_validate attackAction
            (mkWorld (animals game) [target] (map game) (rng game) (rngDraws game))).
Proof.
  repeat split.
  - intros Hnone. unfold ATTACK_COMPONENT_validate. rewrite Hnone.
    repeat branch; eauto.
  - intros Hvalid. unfold ATTACK_COMPONENT_validate in Hvalid.
    destruct (findTargetPlayer (targetName attackAction) game) as [target |] eqn:Hfind.
    + apply find_some in Hfind as [Hin Hpred].
      apply andb_true_iff in Hpred as [Hplaying Hname]. eauto.
    + exfalso. revert Hvalid. repeat branch; discriminate.
  - intros target Hfind. unfold ATTACK_COMPONENT_validate.
    rewrite Hfind. unfold findTargetPlayer in *. simpl.
    apply find_some in Hfind as [_ Hpred]. rewrite Hpred. reflexivity.
Qed.

(** C4 does not hold when several participants match: two playing
    participants are both called Baz, both match the fragment, and
    [validate] accepts the attack instead of rejecting it. *)
Lemma ATTACK_validate_accepts_ambiguous_target :
  let attackAction := mkAttackAction 0%nat (Fin 0) "baz" "Fist" (Fin 1) Attack in
  filter (fun player =>
            isPlaying (animals Reference.world) player
            && isApproximateSubstring "baz" (name player))
         (players Reference.world)
  = [Reference.baz1; Reference.baz2]
  /\ ATTACK_COMPONENT_validate attackAction Reference.world = Ok valid.
Proof. cbv zeta. split; reflexivity. Qed.

(** ** How an Attack runs

    Once the weapon and the target are resolved, the damage is dealt; the
    rest of [perform] either faults, leaving the damage in place, or ends
    with the attacker's bullets or stamina spent. *)

Section AttackFacts.
Context `{C : Collaborators}.

Lemma playerId_after_damage (game : World) (l target : loc) (d : number) :
  playerId (animals (updateWorld game target (takeDamage d)) l)
  = playerId (animals game l).
Proof. simpl. now destruct (l =? target)%nat eqn:E; same_object. Qed.

Lemma inventory_after_damage (game : World) (l target : loc) (d : number) :
  inventory (animals (updateWorld game target (takeDamage d)) l)
  = inventory (animals game l).
Proof. simpl. now destruct (l =? target)%nat eqn:E; same_object. Qed.

Lemma ATTACK_perform_cases
  (attackAction : AttackAction) (log : list string) (game : World)
  (weaponStack : ItemStack) (targetPlayer : Player) :
  Weapon_stringIsAttackWeaponName (weaponName attackAction) = true ->
  resolveWeaponStack attackAction
    (inventory (animals game (attack_actor attackAction))) = Some weaponStack ->
  findTargetPlayer (targetName attackAction) game = Some targetPlayer ->
  let self := attack_actor attackAction in
  let weapon := item weaponStack in
  let effective := actualTimesAttacked attackAction weapon in
  let totalDamage := num_mul effective (item_damageAmount weapon) in
  let game1 := updateWorld game (character targetPlayer) (takeDamage totalDamage) in
  let out := ATTACK_COMPONENT_perform attackAction log game in
  match playerId (animals game self) with
  | None => out = (Throw "Expected attacker to be a player!", game1)
  | Some pid =>
      match Game_getPlayer game1 pid with
      | None => out = (Throw "Expected AttackAction actor to exist!", game1)
      | Some _ =>
          match weapon with
          | Gun _ _ _ _ bullet =>
              match Inventory_removeFromInventory (inventory (animals game self))
                      bullet (times attackAction) with
              | Throw msg => out = (Throw msg, game1)
              | Ok (newInventory, _) =>
                  exists result,
                    out = (Ok result,
                           updateWorld game1 self
                             (fun a => with_inventory a newInventory))
              end
          | _ =>
              exists result,
                out = (Ok result,
                       updateWorld (updateWorld game1 self (loseStrength effective))
                         self (loseAgility (times attackAction)))
          end
      end
  end.
Proof.
  intros Hname Hweapon Htarget. cbv zeta.
  pose proof (playerId_after_damage game (attack_actor attackAction)
                (character targetPlayer)) as Hpid.
  pose proof (inventory_after_damage game (attack_actor attackAction)
                (character targetPlayer)) as Hinv.
  remember (ATTACK_COMPONENT_perform attackAction log game) as out eqn:Hout.
  unfold ATTACK_COMPONENT_perform in Hout. rewrite Hname in Hout.
  change (negb true) with false in Hout. steps_in Hout.
  rewrite Hweapon in Hout. steps_in Hout.
  rewrite Htarget in Hout. steps_in Hout. rewrite Hpid in Hout.
  destruct (playerId (animals game (attack_actor attackAction))) as [pid |];
    [| exact Hout].
  unfold expectActorPlayer in Hout. steps_in Hout.
  match goal with
  | |- context [Game_getPlayer ?w pid] =>
      destruct (Game_getPlayer w pid) as [actorPlayer |] eqn:Hplayer
  end; rewrite ?Hplayer in Hout; steps_in Hout; rewrite ?Hplayer in Hout;
    steps_in Hout; [| exact Hout].
  match type of Hout with
  | context [Animal_isDead ?t] => destruct (Animal_isDead t)
  end; steps_in Hout; rewrite ?Hplayer in Hout; steps_in Hout;
    destruct (item weaponStack); steps_in Hout; eauto;
    rewrite Hinv in Hout;
    destruct (Inventory_removeFromInventory _ _ _) as [[newInventory taken] | msg];
    steps_in Hout; eauto.
Qed.

End AttackFacts.

Section AttackOutcome.
Context `{C : Collaborators}.

(** An Attack that runs to its end had a weapon name that is an attack
    weapon's, a weapon and a target. *)
Lemma ATTACK_performed_inv
  (attackAction : AttackAction) (log : list string) (game game' : World)
  (result : PerformResult) :
  ATTACK_COMPONENT_perform attackAction log game = (Ok result, game') ->
  Weapon_stringIsAttackWeaponName (weaponName attackAction) = true
  /\ (exists weaponStack,
         resolveWeaponStack attackAction
           (inventory (animals game (attack_actor attackAction))) = Some weaponStack)
  /\ (exists targetPlayer,
         findTargetPlayer (targetName attackAction) game = Some targetPlayer).
Proof.
  unfold ATTACK_COMPONENT_perform. intros H.
  destruct (Weapon_stringIsAttackWeaponName (weaponName attackAction));
    [| discriminate H].
  change (negb true) with false in H. steps_in H.
  destruct (resolveWeaponStack _ _) as [weaponStack |]; [| discriminate H].
  steps_in H.
  destruct (findTargetPlayer _ _) as [targetPlayer |]; [| discriminate H].
  eauto.
Qed.

(** A valid Attack has a weapon and a target. *)
Lemma ATTACK_valid_inv (attackAction : AttackAction) (game : World) :
  ATTACK_COMPONENT_validate attackAction game = Ok valid ->
  (exists weaponStack,
      resolveWeaponStack attackAction
        (inventory (animals game (attack_actor attackAction))) = Some weaponStack)
  /\ (exists targetPlayer,
         findTargetPlayer (targetName attackAction) game = Some targetPlayer).
Proof.
  unfold ATTACK_COMPONENT_validate. intros H.
  destruct (_ && _); [discriminate H |].
  destruct (_ || _); [discriminate H |].
  destruct (findTargetPlayer _ _) as [targetPlayer |]; [| discriminate H].
  destruct (resolveWeaponStack _ _) as [weaponStack |]; [| discriminate H].
  eauto.
Qed.

Lemma health_after_damage (game : World) (target : loc) (d : number) :
  health (stats (animals (updateWorld game target (takeDamage d)) target))
  = Math_max (Fin 0) (num_sub (health (stats (animals game target))) d).
Proof. simpl. now rewrite Nat.eqb_refl. Qed.

(** A change of an object that keeps [project] keeps it on every object. *)
Lemma updateWorld_keeps {A : Type} (project : Animal -> A)
  (game : World) (l l' : loc) (f : Animal -> Animal) :
  (forall a, project (f a) = project a) ->
  project (animals (updateWorld game l f) l') = project (animals game l').
Proof.
  intros Hkeep. simpl. destruct (l' =? l)%nat eqn:E; same_object; auto.
Qed.

Lemma updateWorld_same (game : World) (l : loc) (f : Animal -> Animal) :
  animals (updateWorld game l f) l = f (animals game l).
Proof. simpl. now rewrite Nat.eqb_refl. Qed.

Lemma updateWorld_other (game : World) (l l' : loc) (f : Animal -> Animal) :
  l' <> l -> animals (updateWorld game l f) l' = animals game l'.
Proof. intros H. simpl. apply Nat.eqb_neq in H. now rewrite H. Qed.

End AttackOutcome.

(** C1, as amended. For every performed Attack, with the weapon and the
    target it resolves: the effective strike count is floor(N * A / 100)
    for a gun of accuracy A, and N itself for any other weapon, as long as
    N * A, respectively N * 100, is within 2^53 (a strike count that is not
    finite stays what it is for a weapon that is no gun); the total damage
    is the effective strike count times the weapon's damage per strike;
    and the target's health ends as max(0, prior health - total damage),
    product and difference being those of doubles.  With accuracy 100 that
    is max(0, prior health - N * D), as long as N * 100, N * D and the
    difference are within 2^53. *)
Theorem ATTACK_damage `{C : Collaborators}
  (attackAction : AttackAction) (log : list string) (game game' : World)
  (result : PerformResult) (weaponStack : ItemStack) (targetPlayer : Player)
  (Hperformed : ATTACK_COMPONENT_perform attackAction log game = (Ok result, game'))
  (Hweapon :
     resolveWeaponStack attackAction
       (inventory (animals game (attack_actor attackAction))) = Some weaponStack)
  (Htarget : findTargetPlayer (targetName attackAction) game = Some targetPlayer) :
  let weapon := item weaponStack in
  let effective := actualTimesAttacked attackAction weapon in
  let totalDamage := num_mul effective (item_damageAmount weapon) in
  let before := health (stats (animals game (character targetPlayer))) in
  let after := health (stats (animals game' (character targetPlayer))) in
  (forall gunName range damage accuracy bullet n,
      weapon = Gun gunName range damage (Fin accuracy) bullet ->
      times attackAction = Fin n ->
      Z.abs (n * accuracy) <= 2 ^ 53 ->
      effective = Fin (n * accuracy / 100)
      /\ 100 * (n * accuracy / 100) <= n * accuracy < 100 * (n * accuracy / 100) + 100)
  /\ (Weapon_isWeaponGun weapon = false ->
      (forall n, times attackAction = Fin n -> Z.abs (n * 100) <= 2 ^ 53) ->
      effective = times attackAction)
  /\ after = Math_max (Fin 0) (num_sub before totalDamage)
  /\ (forall n d h,
         accuracyPercentage weapon = Fin 100 ->
         times attackAction = Fin n ->
         item_damageAmount weapon = Fin d ->
         before = Fin h ->
         Z.abs (n * 100) <= 2 ^ 53 ->
         Z.abs (n * d) <= 2 ^ 53 ->
         Z.abs (h - n * d) <= 2 ^ 53 ->
         after = Fin (Z.max 0 (h - n * d))).
Proof.
  cbv zeta.
  assert (Heffective :
            accuracyPercentage (item weaponStack) = Fin 100 ->
            (forall n, times attackAction = Fin n -> Z.abs (n * 100) <= 2 ^ 53) ->
            actualTimesAttacked attackAction (item weaponStack) = times attackAction).
  { intros Hacc Hbound. unfold actualTimesAttacked. rewrite Hacc.
    now apply Math_floor_div_100. }
  assert (Hafter :
            health (stats (animals game' (character targetPlayer)))
            = Math_max (Fin 0)
                (num_sub (health (stats (animals game (character targetPlayer))))
                   (num_mul (actualTimesAttacked attackAction (item weaponStack))
                      (item_damageAmount (item weaponStack))))).
  { destruct (ATTACK_performed_inv _ _ _ _ _ Hperformed) as (Hname & _ & _).
    pose proof (ATTACK_perform_cases attackAction log game weaponStack
                  targetPlayer Hname Hweapon Htarget) as Hcases.
    cbv zeta in Hcases. rewrite Hperformed in Hcases.
    rewrite <- health_after_damage.
    destruct (playerId (animals game (attack_actor attackAction))) as [pid |];
      [| discriminate Hcases].
    destruct (Game_getPlayer _ pid); [| discriminate Hcases].
    destruct (item weaponStack);
      try (destruct Hcases as [r Hr]; injection Hr as _ ->;
           rewrite 2 (updateWorld_keeps (fun a => health (stats a)));
           reflexivity).
    destruct (Inventory_removeFromInventory _ _ _) as [[newInventory taken] |];
      [| discriminate Hcases].
    destruct Hcases as [r Hr]; injection Hr as _ ->.
    rewrite (updateWorld_keeps (fun a => health (stats a))); reflexivity. }
  split; [| split; [| split]].
  - intros gunName range damage accuracy bullet n Hgun Htimes Hbound.
    split; [| split].
    + unfold actualTimesAttacked. rewrite Hgun, Htimes.
      cbn [accuracyPercentage].
      now rewrite num_mul_Fin, Math_floor_div_small.
    + apply Z.mul_div_le. lia.
    + pose proof (Z.mul_succ_div_gt (n * accuracy) 100). lia.
  - intros Hmelee. apply Heffective.
    destruct (item weaponStack); try reflexivity; discriminate Hmelee.
  - exact Hafter.
  - intros n d h Hacc Htimes Hdamage Hbefore Hhundred Hproduct Hdifference.
    rewrite Hafter, Heffective, Htimes, Hdamage, Hbefore; auto.
    + now rewrite num_mul_Fin, num_sub_Fin.
    + intros n' Hn'. rewrite Htimes in Hn'. now injection Hn' as <-.
Qed.

Lemma ATTACK_damage_witness :
  let attackAction := mkAttackAction 1%nat (Fin 0) "baz" "Fist" (Fin 2) Attack in
  let out := ATTACK_COMPONENT_perform attackAction [] Reference.world in
  health (stats (animals Reference.world 0%nat)) = Fin 10
  /\ health (stats (animals (snd out) 0%nat)) = Fin 8.
Proof.
  cbv zeta. split; [reflexivity |].
  pose (out := ATTACK_COMPONENT_perform
                 (mkAttackAction 1%nat (Fin 0) "baz" "Fist" (Fin 2) Attack)
                 [] Reference.world).
  assert (Hperformed :
            out = (Ok (match fst out with
                       | Ok r => r
                       | Throw _ => mkPerformResult [] []
                       end),
                   snd out))
    by (vm_compute; reflexivity).
  destruct (ATTACK_damage _ _ _ (snd out)
              (match fst out with Ok r => r | Throw _ => mkPerformResult [] [] end)
              (mkItemStack Weapon_FIST (Fin 1) (Fin 1)) Reference.baz1
              Hperformed eq_refl eq_refl)
    as (_ & _ & _ & Hhealth).
  exact (Hhealth 2 1 10 eq_refl eq_refl eq_refl eq_refl
           ltac:(vm_compute; discriminate) ltac:(vm_compute; discriminate)
           ltac:(vm_compute; discriminate)).
Defined.

(** C1 does not hold of every strike count.  The second player strikes
    the first 360287970189641 times with the fist, which [validate]
    accepts: a hundred times that count is no double, the product is
    rounded down, and its hundredth is rounded again, so that
    [Math.floor] gives 360287970189640 effective strikes, as the notice
    to the attacker says. *)
Lemma ATTACK_fist_lands_one_strike_fewer :
  let attackAction :=
    mkAttackAction 1%nat (Fin 0) "baz" "Fist" (Fin 360287970189641) Attack in
  let out := ATTACK_COMPONENT_perform attackAction [] Reference.world in
  ATTACK_COMPONENT_validate attackAction Reference.world = Ok valid
  /\ Weapon_isWeaponGun Weapon_FIST = false
  /\ num_mul (Fin 360287970189641) (Fin 100) = Fin 36028797018964096
  /\ actualTimesAttacked attackAction Weapon_FIST = Fin 360287970189640
  /\ exists result,
       fst out = Ok result
       /\ List.map content (messages result)
          = ["You attacked Baz 360287970189640 time(s) for a total of 360287970189640 damage!";
             "Baz attacked you for 360287970189640 damage!";
             "You killed Baz!";
             "You were killed by Baz"].
Proof.
  cbv zeta. repeat (split; [vm_compute; reflexivity |]).
  eexists. split; vm_compute; reflexivity.
Qed.

(** C9. [perform] raises a fault for every Attack whose actor is not a
    player's character, so that only a player's character completes an
    Attack; and when [validate] has accepted the action, which it does
    without looking at who the actor is, the fault is the one that says
    that the attacker was expected to be a player. *)
Theorem ATTACK_perform_expects_player `{C : Collaborators}
  (attackAction : AttackAction) (log : list string) (game : World)
  (Hanimal : playerId (animals game (attack_actor attackAction)) = None) :
  (exists msg, fst (ATTACK_COMPONENT_perform attackAction log game) = Throw msg)
  /\ (Weapon_stringIsAttackWeaponName (weaponName attackAction) = true ->
      ATTACK_COMPONENT_validate attackAction game = Ok valid ->
      fst (ATTACK_COMPONENT_perform attackAction log game)
      = Throw "Expected attacker to be a player!").
Proof.
  assert (Hresolved :
            forall weaponStack targetPlayer,
              Weapon_stringIsAttackWeaponName (weaponName attackAction) = true ->
              resolveWeaponStack attackAction
                (inventory (animals game (attack_actor attackAction)))
              = Some weaponStack ->
              findTargetPlayer (targetName attackAction) game = Some targetPlayer ->
              fst (ATTACK_COMPONENT_perform attackAction log game)
              = Throw "Expected attacker to be a player!").
  { intros weaponStack targetPlayer Hname Hweapon Htarget.
    pose proof (ATTACK_perform_cases attackAction log game weaponStack
                  targetPlayer Hname Hweapon Htarget) as Hcases.
    cbv zeta in Hcases. rewrite Hanimal in Hcases. now rewrite Hcases. }
  split.
  - destruct (Weapon_stringIsAttackWeaponName (weaponName attackAction)) eqn:Hname.
    + destruct (resolveWeaponStack attackAction
                  (inventory (animals game (attack_actor attackAction))))
        as [weaponStack |] eqn:Hweapon.
      * destruct (findTargetPlayer (targetName attackAction) game)
          as [targetPlayer |] eqn:Htarget.
        -- erewrite Hresolved; eauto.
        -- unfold ATTACK_COMPONENT_perform. rewrite Hname.
           change (negb true) with false. steps. rewrite Hweapon. steps.
           rewrite Htarget. simpl. eauto.
      * unfold ATTACK_COMPONENT_perform. rewrite Hname.
        change (negb true) with false. steps. rewrite Hweapon. simpl. eauto.
    + unfold ATTACK_COMPONENT_perform. rewrite Hname. simpl. eauto.
  - intros Hname Hvalid.
    destruct (ATTACK_valid_inv _ _ Hvalid) as [[weaponStack Hweapon] [targetPlayer Htarget]].
    eauto.
Qed.

Lemma ATTACK_perform_expects_player_witness :
  let attackAction := mkAttackAction 5%nat (Fin 0) "baz" "Knife" (Fin 1) Attack in
  ATTACK_COMPONENT_validate attackAction Reference.world = Ok valid
  /\ fst (ATTACK_COMPONENT_perform attackAction [] Reference.world)
     = Throw "Expected attacker to be a player!".
Proof.
  cbv zeta. split; [reflexivity |].
  exact (proj2 (ATTACK_perform_expects_player
                  (mkAttackAction 5%nat (Fin 0) "baz" "Knife" (Fin 1) Attack)
                  [] Reference.world eq_refl)
               eq_refl eq_refl).
Defined.




(** ** The registry *)

(** [find] returns the first element that satisfies the test. *)
Lemma find_first {A : Type} (f : A -> bool) (l : list A) (x : A) :
  find f l = Some x ->
  exists earlier later,
    l = (earlier ++ x :: later)%list
    /\ f x = true
    /\ forall y, In y earlier -> f y = false.
Proof.
  induction l as [| a l IH]; simpl; [discriminate |].
  destruct (f a) eqn:Ha.
  - intros [= ->]. exists [], l. repeat split; auto. intros y [].
  - intros H. destruct (IH H) as (earlier & later & -> & Hx & Hearlier).
    exists (a :: earlier), later. repeat split; auto.
    intros y [<- | Hy]; auto.
Qed.

Lemma find_none_iff {A : Type} (f : A -> bool) (l : list A) :
  find f l = None <-> forall y, In y l -> f y = false.
Proof.
  split; [apply find_none |].
  induction l as [| a l IH]; simpl; [reflexivity |]. intros H.
  rewrite (H a) by auto. apply IH. auto.
Qed.

(** C8. [getComponentByText] tests the patterns in the declared order
    Move, Pass, Rest, Ingest, Attack, Pickup, Drop and returns the first
    component whose pattern matches the text, and nothing when none does;
    [isParsableAction] holds exactly when some pattern matches; and
    [getComponentByKey] returns, for each of the seven kinds, the component
    registered under it. *)
Theorem registry_first_match_in_declared_order `{C : Collaborators}
  (text : string) :
  let declared :=
    [MOVE_COMPONENT; PASS_COMPONENT; REST_COMPONENT; INGEST_COMPONENT;
     ATTACK_COMPONENT; PICKUP_ACTION; DROP_ACTION] in
  (forall component,
      getComponentByText text = Some component ->
      exists earlier later,
        declared = (earlier ++ component :: later)%list
        /\ RegExp_test (pattern component) text = true
        /\ forall other, In other earlier ->
                         RegExp_test (pattern other) text = false)
  /\ (getComponentByText text = None
      <-> forall component, In component declared ->
                            RegExp_test (pattern component) text = false)
  /\ (isParsableAction text = true
      <-> exists component,
            In component declared /\ RegExp_test (pattern component) text = true)
  /\ (getComponentByKey Move = Ok MOVE_COMPONENT
      /\ getComponentByKey Pass = Ok PASS_COMPONENT
      /\ getComponentByKey Rest = Ok REST_COMPONENT
      /\ getComponentByKey Ingest = Ok INGEST_COMPONENT
      /\ getComponentByKey Attack = Ok ATTACK_COMPONENT
      /\ getComponentByKey Pickup = Ok PICKUP_ACTION
      /\ getComponentByKey Drop = Ok DROP_ACTION)
  /\ (forall k, exists component,
         getComponentByKey k = Ok component /\ componentKey component = k).
Proof.
  cbv zeta.
  change (getComponentByText text)
    with (find (fun comp => RegExp_test (pattern comp) text)
            [MOVE_COMPONENT; PASS_COMPONENT; REST_COMPONENT; INGEST_COMPONENT;
             ATTACK_COMPONENT; PICKUP_ACTION; DROP_ACTION]).
  split; [| split; [| split; [| split]]].
  - intros component H. exact (find_first _ _ _ H).
  - apply find_none_iff.
  - unfold isParsableAction.
    change (getComponentByText text)
      with (find (fun comp => RegExp_test (pattern comp) text)
              [MOVE_COMPONENT; PASS_COMPONENT; REST_COMPONENT; INGEST_COMPONENT;
               ATTACK_COMPONENT; PICKUP_ACTION; DROP_ACTION]).
    destruct (find _ _) as [component |] eqn:Hfind.
    + split; [| reflexivity]. intros _.
      apply find_some in Hfind. eauto.
    + split; [discriminate |]. intros (component & Hin & Hmatch).
      rewrite (proj1 (find_none_iff _ _) Hfind component Hin) in Hmatch.
      discriminate.
  - repeat split.
  - intros []; eexists; split; reflexivity.
Qed.

(** The same text can match two patterns: Attack is declared before Drop
    and wins. *)
Example registry_attack_before_drop :
  List.map (fun c => RegExp_test (pattern c) "attack drop Knife 3")
           [ATTACK_COMPONENT; DROP_ACTION] = [true; true]
  /\ option_map componentKey (getComponentByText "attack drop Knife 3")
     = Some Attack.
Proof. split; vm_compute; reflexivity. Qed.

Example registry_examples :
  option_map componentKey (getComponentByText "Go North") = Some Move
  /\ option_map componentKey (getComponentByText "PASS") = Some Pass
  /\ option_map componentKey (getComponentByText "rest") = Some Rest
  /\ option_map componentKey (getComponentByText "quaff water") = Some Ingest
  /\ option_map componentKey (getComponentByText "grab  12 rifle bullet")
     = Some Pickup
  /\ option_map componentKey (getComponentByText "please drop 2 stew now")
     = Some Drop
  /\ getComponentByText "go  north" = None
  /\ isParsableAction "foobarbaz" = false.
Proof. repeat split; vm_compute; reflexivity. Qed.

(** * Further properties of the components *)

(** ** Texts and patterns *)

Lemma append_assoc (s1 s2 s3 : string) : (s1 ++ s2) ++ s3 = s1 ++ (s2 ++ s3).
Proof. induction s1 as [| c s1 IH]; simpl; [reflexivity | now rewrite IH]. Qed.

Lemma toLowerCase_append (s1 s2 : string) :
  toLowerCase (s1 ++ s2) = toLowerCase s1 ++ toLowerCase s2.
Proof. induction s1 as [| c s1 IH]; simpl; [reflexivity | now rewrite IH]. Qed.

Lemma toLowerCase_length (s : string) :
  String.length (toLowerCase s) = String.length s.
Proof. induction s as [| c s IH]; simpl; [reflexivity | now rewrite IH]. Qed.

Lemma toLowerCase_substring (s : string) :
  forall n m, toLowerCase (substring n m s) = substring n m (toLowerCase s).
Proof.
  induction s as [| c s IH]; intros [| n] [| m]; simpl; try reflexivity;
    now rewrite IH.
Qed.

Lemma canonicalize_lower (c : ascii) :
  canonicalize (lower_ascii c) = canonicalize c.
Proof.
  destruct c as [[] [] [] [] [] [] [] []]; vm_compute; reflexivity.
Qed.

Lemma lower_chr_i (x c : ascii) :
  lower_ascii c = lower_ascii x ->
  Ascii.eqb (canonicalize c) (canonicalize x) = true.
Proof.
  intros H. apply Ascii.eqb_eq.
  rewrite <- (canonicalize_lower c), <- (canonicalize_lower x).
  now rewrite H.
Qed.

(** A text with the lower-case form of a literal matches it under the [i]
    flag. *)
Lemma lit_i_complete (x : string) :
  forall s, toLowerCase s = toLowerCase x -> matches (lit_i x) s.
Proof.
  induction x as [| a x IH]; intros [| c s]; simpl; intros H;
    try discriminate.
  - constructor.
  - injection H as Hc Hs.
    change (String c s) with (String c EmptyString ++ s).
    constructor; [constructor; now apply lower_chr_i | auto].
Qed.

Lemma lit_i_self (x : string) : matches (lit_i x) x.
Proof. now apply lit_i_complete. Qed.

Lemma lit_i_split (x y : string) :
  forall s, matches (lit_i (x ++ y)) s ->
            exists s1 s2, s = s1 ++ s2 /\ matches (lit_i x) s1 /\ matches (lit_i y) s2.
Proof.
  induction x as [| a x IH]; simpl; intros s H.
  - exists EmptyString, s. repeat split; [constructor | assumption].
  - apply matches_Cat_inv in H as (c1 & rest & -> & Hc & Hrest).
    destruct (IH _ Hrest) as (s1 & s2 & -> & H1 & H2).
    exists (c1 ++ s1), s2. rewrite append_assoc.
    repeat split; [constructor |]; assumption.
Qed.

(** What the three fixed patterns accept, in terms of the lower-case text. *)
Lemma lit_i_iff (x text : string) :
  RegExp_test (lit_i x) text = true <-> toLowerCase text = toLowerCase x.
Proof.
  split.
  - intros H. now apply RegExp_test_sound, lit_i_matches in H.
  - intros H. now apply RegExp_test_complete, lit_i_complete.
Qed.

Lemma MOVE_pattern_iff (text : string) :
  RegExp_test MOVE_COMPONENT_pattern text = true
  <-> (toLowerCase text = "go north" \/ toLowerCase text = "go south"
       \/ toLowerCase text = "go east" \/ toLowerCase text = "go west").
Proof.
  change MOVE_COMPONENT_pattern
    with (Cat (lit_i "go ")
              (Alt (lit_i "north")
                   (Alt (lit_i "south") (Alt (lit_i "east") (lit_i "west"))))).
  split.
  - intros H. apply RegExp_test_sound in H.
    apply matches_Cat_inv in H as (s1 & s2 & -> & Hgo & Hdir).
    apply lit_i_matches in Hgo as [_ Hgo].
    rewrite toLowerCase_append, Hgo.
    repeat (apply matches_Alt_inv in Hdir as [Hdir | Hdir]);
      apply lit_i_matches in Hdir as [_ Hdir]; rewrite Hdir; simpl; auto.
  - intros H. apply RegExp_test_complete.
    assert (Hsplit :
              exists dir,
                matches (lit_i ("go " ++ dir)) text
                /\ (dir = "north" \/ dir = "south" \/ dir = "east" \/ dir = "west")).
    { destruct H as [H | [H | [H | H]]];
        [exists "north" | exists "south" | exists "east" | exists "west"];
        (split; [apply lit_i_complete; exact H | auto]). }
    destruct Hsplit as (dir & Hm & Hdir).
    apply lit_i_split in Hm as (s1 & s2 & -> & H1 & H2).
    constructor; [assumption |].
    destruct Hdir as [-> | [-> | [-> | ->]]];
      [apply M_AltL
      | apply M_AltR, M_AltL
      | apply M_AltR, M_AltR, M_AltL
      | apply M_AltR, M_AltR, M_AltR]; assumption.
Qed.

(** X1. [MOVE_COMPONENT.parse] reads the direction whatever the case of
    the letters: north is row -1, south row +1, west column -1, east
    column +1, with the actor and the timestamp it was given; every other
    text is the fault "Unable to parse MoveAction", so that the fault
    "Unknown direction" is never raised. *)
Theorem MOVE_parse_by_direction `{C : Collaborators}
  (text : string) (actor : loc) (timestamp : number) :
  let lower := toLowerCase text in
  let parsed := MOVE_COMPONENT_parse text actor timestamp in
  (lower = "go north" ->
   parsed = Ok (mkMoveAction actor timestamp (Fin (-1)) (Fin 0) Move))
  /\ (lower = "go south" ->
      parsed = Ok (mkMoveAction actor timestamp (Fin 1) (Fin 0) Move))
  /\ (lower = "go west" ->
      parsed = Ok (mkMoveAction actor timestamp (Fin 0) (Fin (-1)) Move))
  /\ (lower = "go east" ->
      parsed = Ok (mkMoveAction actor timestamp (Fin 0) (Fin 1) Move))
  /\ (lower <> "go north" -> lower <> "go south" ->
      lower <> "go west" -> lower <> "go east" ->
      parsed = Throw ("Unable to parse MoveAction: " ++ text)).
Proof.
  cbv zeta.
  assert (Hdir :
            forall l, toLowerCase text = l ->
                      toLowerCase (substring 3 (String.length text - 3) text)
                      = substring 3 (String.length l - 3) l).
  { intros l <-. now rewrite toLowerCase_substring, toLowerCase_length. }
  assert (Hyes :
            forall l, toLowerCase text = l ->
                      (l = "go north" \/ l = "go south" \/ l = "go east" \/ l = "go west") ->
                      RegExp_test MOVE_COMPONENT_pattern text = true).
  { intros l <- H. now apply MOVE_pattern_iff. }
  unfold MOVE_COMPONENT_parse.
  repeat split.
  1-4: intros H; rewrite (Hyes _ H) by auto; rewrite (Hdir _ H);
       reflexivity.
  intros Hn Hs Hw He.
  destruct (RegExp_test MOVE_COMPONENT_pattern text) eqn:Hmatch; [| reflexivity].
  apply MOVE_pattern_iff in Hmatch. tauto.
Qed.

Lemma prefix_append (a b : string) : String.prefix a (a ++ b) = true.
Proof.
  induction a as [| c a IH]; simpl; [now destruct b |].
  destruct (ascii_dec c c); [assumption | congruence].
Qed.

Lemma mentions_append (c : ascii) (a b : string) :
  mentions c (a ++ b) = (mentions c a || mentions c b)%bool.
Proof.
  induction a as [| x a IH]; simpl; [reflexivity |].
  now rewrite IH, orb_assoc.
Qed.

Lemma alt_i_matches_inv (names : list string) (s : string) :
  matches (alt_i names) s ->
  (names = [] /\ s = EmptyString)
  \/ exists n, In n names /\ matches (lit_i n) s.
Proof.
  induction names as [| n [| m rest] IH]; simpl; intros H.
  - left. inversion H. now split.
  - right. exists n. auto.
  - right. apply matches_Alt_inv in H as [H | H].
    + exists n. auto.
    + destruct (IH H) as [[E _] | (k & Hin & Hk)]; [discriminate |].
      exists k. auto.
Qed.

Lemma alt_i_In (names : list string) (n : string) :
  In n names -> matches (alt_i names) n.
Proof.
  induction names as [| m [| k rest] IH]; simpl; intros H.
  - contradiction.
  - destruct H as [<- | []]. apply lit_i_self.
  - destruct H as [<- | H].
    + apply M_AltL, lit_i_self.
    + apply M_AltR, IH, H.
Qed.

(** A text that matches a pattern beginning with a literal begins, in
    lower case, with the literal. *)
Lemma Cat_lit_prefix (x : string) (r : re) (text : string) :
  matches (Cat (lit_i x) r) text ->
  String.prefix (toLowerCase x) (toLowerCase text) = true.
Proof.
  intros H. apply matches_Cat_inv in H as (s1 & s2 & -> & H1 & _).
  apply lit_i_matches in H1 as [_ H1].
  rewrite toLowerCase_append, H1. apply prefix_append.
Qed.

Lemma Cat_alt_prefix (names : list string) (r : re) (text : string) :
  names <> [] ->
  matches (Cat (alt_i names) r) text ->
  exists n, In n names
            /\ String.prefix (toLowerCase n) (toLowerCase text) = true.
Proof.
  intros Hnames H. apply matches_Cat_inv in H as (s1 & s2 & -> & H1 & H2).
  apply alt_i_matches_inv in H1 as [[E _] | (n & Hin & Hn)]; [contradiction |].
  exists n. split; [assumption |].
  apply (Cat_lit_prefix n r). now constructor.
Qed.

Lemma any_text_matches (s : string) : matches any_text s.
Proof.
  induction s as [| c s IH]; [constructor |].
  change (String c s) with (String c EmptyString ++ s).
  constructor; [now constructor | exact IH].
Qed.

Section PatternFacts.
Context `{C : Collaborators}.

Lemma INGEST_pattern_starts (text : string) :
  RegExp_test INGEST_COMPONENT_pattern text = true ->
  exists verb,
    In verb ["eat"; "consume"; "ingest"; "use"; "drink"; "quaff"]
    /\ String.prefix (toLowerCase verb) (toLowerCase text) = true.
Proof.
  intros H. apply RegExp_test_sound in H.
  unfold INGEST_COMPONENT_pattern in H. cbn [seq] in H.
  apply Cat_alt_prefix in H; [assumption | discriminate].
Qed.

Lemma ATTACK_pattern_starts (text : string) :
  RegExp_test ATTACK_COMPONENT_pattern text = true ->
  String.prefix "attack " (toLowerCase text) = true.
Proof.
  intros H. apply RegExp_test_sound in H.
  unfold ATTACK_COMPONENT_pattern in H. cbn [seq] in H.
  exact (Cat_lit_prefix "attack " _ _ H).
Qed.

Lemma PICKUP_pattern_starts (text : string) :
  RegExp_test PICKUP_ACTION_pattern text = true ->
  exists verb,
    In verb ["pick up"; "get"; "grab"]
    /\ String.prefix (toLowerCase verb) (toLowerCase text) = true.
Proof.
  intros H. apply RegExp_test_sound in H.
  unfold PICKUP_ACTION_pattern in H. cbn [seq] in H.
  apply Cat_alt_prefix in H; [assumption | discriminate].
Qed.

Lemma DROP_pattern_mentions_d (text : string) :
  RegExp_test DROP_ACTION_pattern text = true ->
  mentions "d" (toLowerCase text) = true.
Proof.
  intros H. apply RegExp_test_sound in H.
  unfold DROP_ACTION_pattern, unanchored in H. cbn [seq] in H.
  apply matches_Cat_inv in H as (s1 & s2 & -> & _ & H).
  apply matches_Cat_inv in H as (s3 & s4 & -> & H & _).
  apply matches_Cat_inv in H as (s5 & s6 & -> & H & _).
  apply lit_i_matches in H as [_ H].
  rewrite !toLowerCase_append, H, !mentions_append.
  change (mentions "d" (toLowerCase "drop")) with true.
  rewrite ?orb_true_r, ?orb_true_l. reflexivity.
Qed.

(** The lower-case texts of Move, Pass and Rest, and what else they could
    match: nothing. *)
Lemma fixed_text_other_patterns (text l : string) :
  toLowerCase text = l ->
  In l ["go north"; "go south"; "go east"; "go west"; "pass"; "rest"] ->
  RegExp_test INGEST_COMPONENT_pattern text = false
  /\ RegExp_test ATTACK_COMPONENT_pattern text = false
  /\ RegExp_test PICKUP_ACTION_pattern text = false
  /\ RegExp_test DROP_ACTION_pattern text = false.
Proof.
  intros Hl Hin. repeat split.
  - destruct (RegExp_test INGEST_COMPONENT_pattern text) eqn:H; [| reflexivity].
    apply INGEST_pattern_starts in H as (verb & Hverb & H). rewrite Hl in H.
    simpl in Hin, Hverb.
    repeat (destruct Hin as [<- | Hin]); try contradiction;
      repeat (destruct Hverb as [<- | Hverb]); try contradiction;
      vm_compute in H; discriminate H.
  - destruct (RegExp_test ATTACK_COMPONENT_pattern text) eqn:H; [| reflexivity].
    apply ATTACK_pattern_starts in H. rewrite Hl in H. simpl in Hin.
    repeat (destruct Hin as [<- | Hin]); try contradiction;
      vm_compute in H; discriminate H.
  - destruct (RegExp_test PICKUP_ACTION_pattern text) eqn:H; [| reflexivity].
    apply PICKUP_pattern_starts in H as (verb & Hverb & H). rewrite Hl in H.
    simpl in Hin, Hverb.
    repeat (destruct Hin as [<- | Hin]); try contradiction;
      repeat (destruct Hverb as [<- | Hverb]); try contradiction;
      vm_compute in H; discriminate H.
  - destruct (RegExp_test DROP_ACTION_pattern text) eqn:H; [| reflexivity].
    apply DROP_pattern_mentions_d in H. rewrite Hl in H. simpl in Hin.
    repeat (destruct Hin as [<- | Hin]); try contradiction;
      vm_compute in H; discriminate H.
Qed.

End PatternFacts.

Ltac evaluate_rhs H :=
  match type of H with
  | _ = ?b => let v := eval vm_compute in b in change b with v in H
  end.

Section Exclusive.
Context `{C : Collaborators}.

(** What each pattern says of a text whose lower-case form is one of the
    six texts of Move, Pass and Rest. *)
Lemma fixed_text_tests (text l : string) :
  toLowerCase text = l ->
  In l ["go north"; "go south"; "go east"; "go west"; "pass"; "rest"] ->
  RegExp_test MOVE_COMPONENT_pattern text
  = existsb (String.eqb l) ["go north"; "go south"; "go east"; "go west"]
  /\ RegExp_test PASS_COMPONENT_pattern text = String.eqb l "pass"
  /\ RegExp_test REST_COMPONENT_pattern text = String.eqb l "rest"
  /\ RegExp_test INGEST_COMPONENT_pattern text = false
  /\ RegExp_test ATTACK_COMPONENT_pattern text = false
  /\ RegExp_test PICKUP_ACTION_pattern text = false
  /\ RegExp_test DROP_ACTION_pattern text = false.
Proof.
  intros Hl Hin.
  split; [| split; [| split; [| exact (fixed_text_other_patterns text l Hl Hin)]]].
  - destruct (RegExp_test MOVE_COMPONENT_pattern text) eqn:H.
    + apply MOVE_pattern_iff in H. rewrite Hl in H.
      destruct H as [-> | [-> | [-> | ->]]]; reflexivity.
    + symmetry. apply not_true_is_false. intros E.
      apply existsb_exists in E as (m & Hm & E). apply String.eqb_eq in E.
      subst m. assert (RegExp_test MOVE_COMPONENT_pattern text = true);
        [| congruence].
      apply MOVE_pattern_iff. rewrite Hl. simpl in Hm. intuition auto.
  - unfold PASS_COMPONENT_pattern.
    destruct (RegExp_test (lit_i "pass") text) eqn:H.
    + apply lit_i_iff in H. rewrite Hl in H. now rewrite H.
    + symmetry. apply not_true_is_false. intros E. apply String.eqb_eq in E.
      assert (RegExp_test (lit_i "pass") text = true); [| congruence].
      apply lit_i_iff. now rewrite Hl, E.
  - unfold REST_COMPONENT_pattern.
    destruct (RegExp_test (lit_i "rest") text) eqn:H.
    + apply lit_i_iff in H. rewrite Hl in H. now rewrite H.
    + symmetry. apply not_true_is_false. intros E. apply String.eqb_eq in E.
      assert (RegExp_test (lit_i "rest") text = true); [| congruence].
      apply lit_i_iff. now rewrite Hl, E.
Qed.

End Exclusive.

(** X2. A text that matches the pattern of Move, of Pass or of Rest
    matches no other pattern of the registry, whatever the tables of
    weapon, ingestible and item names hold: [getComponentByText] returns
    that component, and the order of declaration plays no part. *)
Theorem MOVE_PASS_REST_match_nothing_else `{C : Collaborators}
  (text : string) (component : ActionParserComponent)
  (Hcomponent : In component [MOVE_COMPONENT; PASS_COMPONENT; REST_COMPONENT])
  (Hmatch : RegExp_test (pattern component) text = true) :
  getComponentByText text = Some component
  /\ (forall other,
         In other [MOVE_COMPONENT; PASS_COMPONENT; REST_COMPONENT;
                   INGEST_COMPONENT; ATTACK_COMPONENT; PICKUP_ACTION;
                   DROP_ACTION] ->
         RegExp_test (pattern other) text = true ->
         other = component).
Proof.
  assert (Hl : In (toLowerCase text)
                  ["go north"; "go south"; "go east"; "go west"; "pass"; "rest"]).
  { destruct Hcomponent as [<- | [<- | [<- | []]]];
      cbn [pattern MOVE_COMPONENT PASS_COMPONENT REST_COMPONENT] in Hmatch.
    - apply MOVE_pattern_iff in Hmatch. simpl. intuition auto.
    - apply lit_i_iff in Hmatch.
      change (toLowerCase "pass") with "pass" in Hmatch. simpl. auto 10.
    - apply lit_i_iff in Hmatch.
      change (toLowerCase "rest") with "rest" in Hmatch. simpl. auto 10. }
  remember (toLowerCase text) as l eqn:El. symmetry in El.
  pose proof (fixed_text_tests text l El Hl)
    as (HM & HP & HR & HI & HA & HK & HD).
  unfold getComponentByText.
  change (List.map snd PARSERS)
    with [MOVE_COMPONENT; PASS_COMPONENT; REST_COMPONENT; INGEST_COMPONENT;
          ATTACK_COMPONENT; PICKUP_ACTION; DROP_ACTION].
  cbn [find pattern MOVE_COMPONENT PASS_COMPONENT REST_COMPONENT].
  assert (Hothers :
            forall other,
              In other [INGEST_COMPONENT; ATTACK_COMPONENT; PICKUP_ACTION;
                        DROP_ACTION] ->
              RegExp_test (pattern other) text = false).
  { intros other [<- | [<- | [<- | [<- | []]]]]; assumption. }
  simpl in Hl.
  repeat (destruct Hl as [<- | Hl]); try contradiction;
    evaluate_rhs HM; evaluate_rhs HP; evaluate_rhs HR;
    destruct Hcomponent as [<- | [<- | [<- | []]]];
    cbn [pattern MOVE_COMPONENT PASS_COMPONENT REST_COMPONENT] in Hmatch;
    try congruence;
    rewrite ?HM, ?HP, ?HR;
    (split; [reflexivity |]);
    intros other [<- | [<- | [<- | Hin]]]; intros Hother;
    cbn [pattern MOVE_COMPONENT PASS_COMPONENT REST_COMPONENT] in Hother;
    try reflexivity; try congruence;
    rewrite (Hothers _ Hin) in Hother; discriminate Hother.
Qed.

Lemma MOVE_PASS_REST_match_nothing_else_witness :
  getComponentByText "Go North" = Some MOVE_COMPONENT
  /\ (forall other,
         In other [MOVE_COMPONENT; PASS_COMPONENT; REST_COMPONENT;
                   INGEST_COMPONENT; ATTACK_COMPONENT; PICKUP_ACTION;
                   DROP_ACTION] ->
         RegExp_test (pattern other) "Go North" = true ->
         other = MOVE_COMPONENT).
Proof.
  refine (MOVE_PASS_REST_match_nothing_else "Go North" MOVE_COMPONENT _ _).
  - left. reflexivity.
  - vm_compute. reflexivity.
Defined.

(** X3. The patterns of Attack and of Drop overlap as soon as the name of
    an attack weapon is also the name of an item: the text that attacks a
    participant called "drop" with it matches both, and
    [getComponentByText] returns Attack, which is declared first. *)
Theorem ATTACK_is_found_before_DROP `{C : Collaborators}
  (weapon : string)
  (Hweapon : In weapon Weapon_namesForAttacking)
  (Hitem : In weapon itemNames) :
  let text := "attack drop " ++ weapon ++ " 1" in
  RegExp_test (pattern ATTACK_COMPONENT) text = true
  /\ RegExp_test (pattern DROP_ACTION) text = true
  /\ getComponentByText text = Some ATTACK_COMPONENT.
Proof.
  cbv zeta.
  assert (Hattack :
            RegExp_test ATTACK_COMPONENT_pattern
              ("attack drop " ++ weapon ++ " 1") = true).
  { apply RegExp_test_complete.
    unfold ATTACK_COMPONENT_pattern. cbn [seq].
    change ("attack drop " ++ weapon ++ " 1")
      with ("attack " ++ ("drop" ++ (" " ++ (weapon ++ (" " ++ "1"))))).
    repeat (apply M_Cat);
      try apply lit_i_self;
      try (apply RegExp_test_sound; reflexivity).
    now apply alt_i_In. }
  assert (Hdrop :
            RegExp_test DROP_ACTION_pattern
              ("attack drop " ++ weapon ++ " 1") = true).
  { apply RegExp_test_complete.
    unfold DROP_ACTION_pattern, unanchored. cbn [seq].
    change ("attack drop " ++ weapon ++ " 1")
      with ("attack " ++ (("drop" ++ (EmptyString ++ (" " ++ weapon))) ++ " 1")).
    apply M_Cat; [apply any_text_matches |].
    apply M_Cat; [| apply any_text_matches].
    apply M_Cat; [apply lit_i_self |].
    apply M_Cat; [apply M_AltR; constructor |].
    apply M_Cat; [apply RegExp_test_sound; reflexivity |].
    now apply alt_i_In. }
  split; [exact Hattack |]. split; [exact Hdrop |].
  unfold getComponentByText.
  change (List.map snd PARSERS)
    with [MOVE_COMPONENT; PASS_COMPONENT; REST_COMPONENT; INGEST_COMPONENT;
          ATTACK_COMPONENT; PICKUP_ACTION; DROP_ACTION].
  cbn [find pattern MOVE_COMPONENT PASS_COMPONENT REST_COMPONENT
       INGEST_COMPONENT ATTACK_COMPONENT].
  destruct (RegExp_test MOVE_COMPONENT_pattern _) eqn:HM.
  { apply MOVE_pattern_iff in HM.
    destruct HM as [H | [H | [H | H]]]; vm_compute in H; discriminate H. }
  destruct (RegExp_test PASS_COMPONENT_pattern _) eqn:HP.
  { apply lit_i_iff in HP. vm_compute in HP. discriminate HP. }
  destruct (RegExp_test REST_COMPONENT_pattern _) eqn:HR.
  { apply lit_i_iff in HR. vm_compute in HR. discriminate HR. }
  destruct (RegExp_test INGEST_COMPONENT_pattern _) eqn:HI.
  { apply INGEST_pattern_starts in HI as (verb & Hverb & H). simpl in Hverb.
    repeat (destruct Hverb as [<- | Hverb]); try contradiction;
      vm_compute in H; discriminate H. }
  now rewrite Hattack.
Qed.

Lemma ATTACK_is_found_before_DROP_witness :
  RegExp_test (pattern ATTACK_COMPONENT) "attack drop Knife 1" = true
  /\ RegExp_test (pattern DROP_ACTION) "attack drop Knife 1" = true
  /\ getComponentByText "attack drop Knife 1" = Some ATTACK_COMPONENT.
Proof.
  refine (ATTACK_is_found_before_DROP "Knife" _ _); simpl; auto.
Defined.

(** ** Actions and the registry *)

Section RegistryFacts.
Context `{C : Collaborators}.

(** The component the registry holds for a key. *)
Lemma getComponentByKey_cases (k : ComponentKey) :
  getComponentByKey k
  = Ok match k with
       | Move => MOVE_COMPONENT
       | Pass => PASS_COMPONENT
       | Ingest => INGEST_COMPONENT
       | Rest => REST_COMPONENT
       | Attack => ATTACK_COMPONENT
       | Pickup => PICKUP_ACTION
       | Drop => DROP_ACTION
       end.
Proof. destruct k; reflexivity. Qed.

Lemma Ok_componentKey (c1 c2 : ActionParserComponent) :
  Ok c1 = Ok c2 -> componentKey c1 = componentKey c2.
Proof. intros [= ->]. reflexivity. Qed.

End RegistryFacts.

(** X4. [isActionTypeOf] and the registry agree: an action is of the type
    of a registered component exactly when that component is the one
    [getComponentByKey] returns for the action's key, so that no two
    registered components share a key. *)
Theorem isActionTypeOf_is_the_registered_component `{C : Collaborators}
  (action : Action) (component : ActionParserComponent)
  (Hregistered :
     In component [MOVE_COMPONENT; PASS_COMPONENT; REST_COMPONENT;
                   INGEST_COMPONENT; ATTACK_COMPONENT; PICKUP_ACTION;
                   DROP_ACTION]) :
  isActionTypeOf action component = true
  <-> getComponentByKey (key action) = Ok component.
Proof.
  rewrite getComponentByKey_cases. unfold isActionTypeOf, ComponentKey_eqb.
  simpl in Hregistered.
  repeat (destruct Hregistered as [<- | Hregistered]); try contradiction;
    destruct (key action); cbn;
    (split; [intros H; try reflexivity; try discriminate H
            | intros H; try reflexivity;
              apply Ok_componentKey in H; discriminate H]).
Qed.

Lemma isActionTypeOf_is_the_registered_component_witness :
  getComponentByKey (key (PASS_COMPONENT_parse "pass" 0%nat (Fin 7)))
  = Ok PASS_COMPONENT
  /\ isActionTypeOf (PASS_COMPONENT_parse "pass" 0%nat (Fin 7)) PASS_COMPONENT
     = true.
Proof.
  split; [reflexivity |].
  refine (proj2 (isActionTypeOf_is_the_registered_component
                   (PASS_COMPONENT_parse "pass" 0%nat (Fin 7)) PASS_COMPONENT _)
                eq_refl).
  simpl. auto.
Defined.

(** ** Move *)

Section MoveFacts.
Context `{C : Collaborators}.

(** [perform], branch by branch. *)
Lemma MOVE_perform_eq (move : MoveAction) (log : list string) (game : World) :
  let actor := animals game (move_actor move) in
  let oldPos := mkPosition (row actor) (col actor) in
  let newPos := mkPosition (num_add (row actor) (offsetRow move))
                           (num_add (col actor) (offsetCol move)) in
  let game1 := updateWorld game (move_actor move) (fun a => moveEntity a newPos) in
  MOVE_COMPONENT_perform move log game
  = match playerId (animals game1 (move_actor move)) with
    | None => (Ok (mkPerformResult log []), game1)
    | Some pid =>
        match Game_getPlayer game1 pid with
        | None => (Throw ("Tried to move a non-present player! Id: " ++ pid), game1)
        | Some player =>
            (Ok (mkPerformResult
                   (push log (name player ++ " from " ++ JSON_stringify oldPos
                              ++ " to " ++ JSON_stringify newPos))
                   [mkMessage Game "You moved!" [player];
                    mkMessage Game
                      (describeRoom (Map_getCell (map game) newPos) (map game))
                      [player]]),
             if Inventory_hasItem (inventory (animals game1 (character player))) "Map"
             then updateWorld game1 (character player)
                    (fun c => with_charMap c
                                (reveal (charMap c)
                                   (Map_getCell (map game) newPos)))
             else game1)
        end
    end.
Proof.
  cbv zeta. unfold MOVE_COMPONENT_perform. steps.
  destruct (playerId _) as [pid |]; [| reflexivity]. steps.
  destruct (Game_getPlayer _ pid) as [player |]; [| reflexivity]. steps.
  destruct (Inventory_hasItem _ _); reflexivity.
Qed.

Lemma with_charMap_same (a : Animal) : with_charMap a (charMap a) = a.
Proof. now destruct a. Qed.

End MoveFacts.

(** X5. A Move that [validate] accepts ends, once performed, with the
    actor inside the map and in a room, on the map [validate] looked at;
    [moveEntity] is taken to place an entity at the position it is
    given. *)
Theorem MOVE_validated_lands_in_a_room `{C : Collaborators}
  (move : MoveAction) (game : World) (log : list string)
  (Hentity : forall a p,
      row (moveEntity a p) = prow p /\ col (moveEntity a p) = pcol p)
  (Hvalid : MOVE_COMPONENT_validate move game = Ok valid) :
  let game' := snd (MOVE_COMPONENT_perform move log game) in
  let here := position_of (animals game' (move_actor move)) in
  map game' = map game
  /\ Map_isWithinMap (map game') here = true
  /\ Cell_isRoom (Map_getCell (map game') here) = true.
Proof.
  cbv zeta.
  set (newPos :=
         mkPosition
           (num_add (row (animals game (move_actor move))) (offsetRow move))
           (num_add (col (animals game (move_actor move))) (offsetCol move))).
  assert (Hchecked :
            Map_isWithinMap (map game) newPos = true
            /\ Cell_isRoom (Map_getCell (map game) newPos) = true).
  { unfold MOVE_COMPONENT_validate in Hvalid. fold newPos in Hvalid.
    destruct (Map_isWithinMap (map game) newPos); [| discriminate Hvalid].
    destruct (Cell_isRoom (Map_getCell (map game) newPos));
      [auto | discriminate Hvalid]. }
  assert (Hhere :
            map (snd (MOVE_COMPONENT_perform move log game)) = map game
            /\ position_of
                 (animals (snd (MOVE_COMPONENT_perform move log game))
                    (move_actor move))
               = newPos).
  { rewrite MOVE_perform_eq. cbv zeta. fold newPos.
    destruct (Hentity (animals game (move_actor move)) newPos) as [Hr Hc].
    unfold position_of.
    repeat branch; same_object; rewrite ?Nat.eqb_refl; simpl;
      rewrite ?Hr, ?Hc; auto. }
  destruct Hhere as [-> ->]. tauto.
Qed.

Lemma MOVE_validated_lands_in_a_room_witness :
  let move := mkMoveAction 0%nat (Fin 5) (Fin 1) (Fin 0) Move in
  let game' := snd (MOVE_COMPONENT_perform move [] Reference.world) in
  MOVE_COMPONENT_validate move Reference.world = Ok valid
  /\ position_of (animals game' 0%nat) = mkPosition (Fin 1) (Fin 0)
  /\ Cell_isRoom (Map_getCell (map game') (position_of (animals game' 0%nat)))
     = true.
Proof.
  cbv zeta. split; [reflexivity |]. split; [reflexivity |].
  refine (proj2 (proj2 (MOVE_validated_lands_in_a_room
                          (mkMoveAction 0%nat (Fin 5) (Fin 1) (Fin 0) Move)
                          Reference.world [] _ _))).
  - intros a p. split; reflexivity.
  - reflexivity.
Defined.

(** X6. Performing a Move tells the actor's player, the one that
    [getPlayer] finds under the actor's player id, that they moved and what
    the new room looks like, and adds the line of that player's name and
    the two positions to the log; an actor that is no player's character
    moves silently, and a player id that nobody holds is a fault.  Apart
    from the actor, the only thing perform changes is the personal map of
    the character of that player, to which the new cell is revealed, and
    only when that character carries a Map. *)
Theorem MOVE_perform_reports_and_touches `{C : Collaborators}
  (move : MoveAction) (game : World) (entries : list string) :
  let out := MOVE_COMPONENT_perform move entries game in
  let actor := animals game (move_actor move) in
  let oldPos := mkPosition (row actor) (col actor) in
  let newPos := mkPosition (num_add (row actor) (offsetRow move))
                           (num_add (col actor) (offsetCol move)) in
  let moved := moveEntity actor newPos in
  let game1 := updateWorld game (move_actor move) (fun a => moveEntity a newPos) in
  (playerId moved = None -> fst out = Ok (mkPerformResult entries []))
  /\ (forall pid,
         playerId moved = Some pid ->
         match Game_getPlayer game1 pid with
         | Some player =>
             fst out
             = Ok (mkPerformResult
                     (push entries
                        (name player ++ " from " ++ JSON_stringify oldPos
                         ++ " to " ++ JSON_stringify newPos))
                     [mkMessage Game "You moved!" [player];
                      mkMessage Game
                        (describeRoom (Map_getCell (map game) newPos) (map game))
                        [player]])
         | None =>
             fst out = Throw ("Tried to move a non-present player! Id: " ++ pid)
         end)
  /\ (forall l,
         l <> move_actor move ->
         with_charMap (animals (snd out) l) (charMap (animals game l))
         = animals game l
         /\ (charMap (animals (snd out) l) <> charMap (animals game l) ->
             exists pid player,
               playerId moved = Some pid
               /\ Game_getPlayer game1 pid = Some player
               /\ l = character player
               /\ Inventory_hasItem (inventory (animals game l)) "Map" = true
               /\ charMap (animals (snd out) l)
                  = reveal (charMap (animals game l))
                      (Map_getCell (map game) newPos)))
  /\ players (snd out) = players game
  /\ rngDraws (snd out) = rngDraws game.
Proof.
  cbv zeta. rewrite MOVE_perform_eq. cbv zeta.
  rewrite updateWorld_same.
  destruct (playerId (moveEntity _ _)) as [pid |] eqn:Hpid.
  - destruct (Game_getPlayer _ pid) as [player |] eqn:Hplayer.
    + cbn [fst snd]. split; [discriminate |]. split.
      { intros pid' [= <-]. now rewrite Hplayer. }
      split; [| destruct (Inventory_hasItem _ _); split; reflexivity].
      intros l Hl.
      destruct (Inventory_hasItem _ _) eqn:Hmap.
      * destruct (Nat.eq_dec l (character player)) as [-> | Hother].
        -- rewrite updateWorld_same, !updateWorld_other in * by assumption.
           split; [now destruct (animals game (character player)) |].
           intros _. exists pid, player. repeat split; auto.
        -- rewrite !updateWorld_other by assumption.
           split; [apply with_charMap_same | congruence].
      * rewrite updateWorld_other by assumption.
        split; [apply with_charMap_same | congruence].
    + cbn [fst snd]. split; [discriminate |]. split.
      { intros pid' [= <-]. now rewrite Hplayer. }
      split; [| split; reflexivity].
      intros l Hl. rewrite updateWorld_other by assumption.
      split; [apply with_charMap_same | congruence].
  - cbn [fst snd]. split; [reflexivity |]. split; [discriminate |].
    split; [| split; reflexivity].
    intros l Hl. rewrite updateWorld_other by assumption.
    split; [apply with_charMap_same | congruence].
Qed.

(** ** Rest *)

Section RestFacts.
Context `{C : Collaborators}.

(** The world [perform] leaves, whatever it returns. *)
Lemma REST_perform_world (restAction : Action) (log : list string) (game : World) :
  snd (REST_COMPONENT_perform restAction log game)
  = match playerId (animals game (actor restAction)) with
    | Some _ => updateWorld game (actor restAction) rested
    | None => game
    end.
Proof.
  unfold REST_COMPONENT_perform. steps.
  destruct (playerId _) as [pid |]; [| reflexivity]. steps.
  destruct (Game_getPlayer _ pid); [| reflexivity].
  destruct (Character_meterIsActive _); reflexivity.
Qed.

End RestFacts.

(** X7. Rest is idempotent on the world: performing the same Rest a second
    time leaves every object, the players, the map and the random draws as
    the first one left them. *)
Theorem REST_twice_is_REST_once `{C : Collaborators}
  (restAction : Action) (game : World) (log1 log2 : list string) :
  let once := snd (REST_COMPONENT_perform restAction log1 game) in
  let twice := snd (REST_COMPONENT_perform restAction log2 once) in
  (forall l, animals twice l = animals once l)
  /\ players twice = players once
  /\ map twice = map once
  /\ rng twice = rng once
  /\ rngDraws twice = rngDraws once.
Proof.
  cbv zeta. rewrite !REST_perform_world.
  destruct (playerId (animals game (actor restAction))) as [pid |] eqn:Hpid.
  - rewrite updateWorld_same. cbn [rested with_effects playerId]. rewrite Hpid.
    repeat split. intros l.
    destruct (Nat.eq_dec l (actor restAction)) as [-> | Hl].
    + rewrite !updateWorld_same. reflexivity.
    + rewrite !updateWorld_other by assumption. reflexivity.
  - rewrite Hpid. repeat split.
Qed.

(** ** Attack *)

(** X8. [ATTACK_COMPONENT.validate] accepts an Attack exactly when: the
    weapon is the fist or is in the actor's inventory; the strike count is
    a positive finite number; a target is found; the target is not farther
    than the weapon's range, is in the actor's row or column, and no
    barrier lies between them; and, for a gun, the inventory holds a stack
    of its bullets that is not smaller than the strike count. *)
Theorem ATTACK_validate_accepts_exactly `{C : Collaborators}
  (attackAction : AttackAction) (game : World) :
  let actor := animals game (attack_actor attackAction) in
  let inv := inventory actor in
  ATTACK_COMPONENT_validate attackAction game = Ok valid
  <-> ((weaponName attackAction = "Fist"
        \/ Inventory_hasItem inv (weaponName attackAction) = true)
       /\ (exists n, times attackAction = Fin n /\ 0 < n)
       /\ exists weaponStack targetPlayer,
            resolveWeaponStack attackAction inv = Some weaponStack
            /\ findTargetPlayer (targetName attackAction) game = Some targetPlayer
            /\ let target := animals game (character targetPlayer) in
               num_gtb
                 (Cell_cardinalPositionDistance
                    (Map_getCell (map game) (position_of actor))
                    (Map_getCell (map game) (position_of target)))
                 (item_range (item weaponStack)) = false
               /\ (num_eqb (row target) (row actor) = true
                   \/ num_eqb (col target) (col actor) = true)
               /\ existsb Cell_isBarrier
                    (List.map (fun pos => Map_getCell (map game) pos)
                       (Cell_getPositionsBetween (position_of target)
                          (position_of actor))) = false
               /\ match item weaponStack with
                  | Gun _ _ _ _ bullet =>
                      Inventory_hasItem inv bullet = true
                      /\ exists bulletStack,
                           Inventory_getItem inv bullet = Some bulletStack
                           /\ num_ltb (stackAmount bulletStack)
                                      (times attackAction) = false
                  | _ => True
                  end).
Proof.
  cbv zeta. unfold ATTACK_COMPONENT_validate. split.
  - intros H.
    destruct (String.eqb (weaponName attackAction) "Fist") eqn:Hfist;
      destruct (Inventory_hasItem _ (weaponName attackAction)) eqn:Hhas;
      try discriminate H; cbn [negb andb] in H;
      (destruct (times attackAction) as [n | | |] eqn:Htimes;
       try discriminate H; cbn [isFinite negb orb] in H;
       destruct (num_leb (Fin n) (Fin 0)) eqn:Hpos; [discriminate H |];
       destruct (findTargetPlayer _ _) as [targetPlayer |]; [| discriminate H];
       destruct (resolveWeaponStack _ _) as [weaponStack |]; [| discriminate H];
       destruct (num_gtb _ _) eqn:Hrange; [discriminate H |];
       destruct (num_eqb (row _) (row _) || num_eqb (col _) (col _))%bool eqn:Hline;
         [| discriminate H];
       destruct (existsb _ _) eqn:Hbarrier; [discriminate H |];
       (split; [first [left; now apply String.eqb_eq | now right] |]);
       (split;
        [exists n; split; [reflexivity |];
         unfold num_leb in Hpos; simpl in Hpos;
         apply orb_false_iff in Hpos as [Hlt Heq];
         apply Z.ltb_ge in Hlt; apply Z.eqb_neq in Heq; lia |]);
       exists weaponStack, targetPlayer;
       repeat split; auto using orb_prop;
       try (apply orb_prop in Hline; exact Hline);
       destruct (item weaponStack); auto;
       destruct (Inventory_hasItem _ bullet); [| discriminate H];
       destruct (Inventory_getItem _ bullet) as [bulletStack |];
         [| discriminate H];
       destruct (num_ltb (stackAmount bulletStack) _) eqn:Hbullets;
         [discriminate H |];
       eauto).
  - intros (Hweapon & (n & Htimes & Hn) & weaponStack & targetPlayer
            & Hstack & Htarget & Hrange & Hline & Hbarrier & Hgun).
    assert (Hfirst :
              (negb (String.eqb (weaponName attackAction) "Fist")
               && negb (Inventory_hasItem
                          (inventory (animals game (attack_actor attackAction)))
                          (weaponName attackAction)))%bool = false).
    { destruct Hweapon as [-> | ->]; [reflexivity |].
      now rewrite andb_false_r. }
    rewrite Hfirst, Htimes. cbn [isFinite negb orb].
    assert (Hpos : num_leb (Fin n) (Fin 0) = false).
    { unfold num_leb. simpl. apply orb_false_iff. split.
      - apply Z.ltb_ge. lia.
      - apply Z.eqb_neq. lia. }
    rewrite Hpos, Htarget, Hstack, Hrange.
    assert (Hline' :
              (num_eqb (row (animals game (character targetPlayer)))
                       (row (animals game (attack_actor attackAction)))
               || num_eqb (col (animals game (character targetPlayer)))
                          (col (animals game (attack_actor attackAction))))%bool
              = true).
    { apply orb_true_iff. exact Hline. }
    rewrite Hline', Hbarrier.
    destruct (item weaponStack); try reflexivity.
    destruct Hgun as (Hhas & bulletStack & Hget & Henough).
    rewrite Hhas, Hget. rewrite Htimes in Henough. now rewrite Henough.
Qed.

Section AttackReports.
Context `{C : Collaborators}.

(** [perform] when the attacker's player is present: the notices, and
    the world. *)
Lemma ATTACK_perform_with_player
  (attackAction : AttackAction) (entries : list string) (game : World)
  (weaponStack : ItemStack) (targetPlayer actorPlayer : Player) (pid : string) :
  let self := attack_actor attackAction in
  let weapon := item weaponStack in
  let effective := actualTimesAttacked attackAction weapon in
  let totalDamage := num_mul effective (item_damageAmount weapon) in
  let game1 := updateWorld game (character targetPlayer) (takeDamage totalDamage) in
  let notices :=
    ([mkMessage Game
        ("You attacked " ++ name targetPlayer ++ " " ++ number_toString effective
         ++ " time(s) for a total of " ++ number_toString totalDamage
         ++ " damage!")
        [actorPlayer];
      mkMessage Game
        (name actorPlayer ++ " attacked you for " ++ number_toString totalDamage
         ++ " damage!")
        [targetPlayer]]
     ++ (if Animal_isDead (animals game1 (character targetPlayer))
         then [mkMessage Game ("You killed " ++ name targetPlayer ++ "!")
                 [actorPlayer];
               mkMessage Game ("You were killed by " ++ name actorPlayer)
                 [targetPlayer]]
         else []))%list in
  Weapon_stringIsAttackWeaponName (weaponName attackAction) = true ->
  resolveWeaponStack attackAction (inventory (animals game self)) = Some weaponStack ->
  findTargetPlayer (targetName attackAction) game = Some targetPlayer ->
  playerId (animals game self) = Some pid ->
  Game_getPlayer game1 pid = Some actorPlayer ->
  ATTACK_COMPONENT_perform attackAction entries game
  = match weapon with
    | Gun _ _ _ _ bullet =>
        match Inventory_removeFromInventory (inventory (animals game self))
                bullet (times attackAction) with
        | Throw msg => (Throw msg, game1)
        | Ok (newInventory, _) =>
            (Ok (mkPerformResult entries notices),
             updateWorld game1 self (fun a => with_inventory a newInventory))
        end
    | _ =>
        (Ok (mkPerformResult entries notices),
         updateWorld (updateWorld game1 self (loseStrength effective))
           self (loseAgility (times attackAction)))
    end.
Proof.
  cbv zeta. intros Hname Hweapon Htarget Hpid Hplayer.
  pose proof (playerId_after_damage game (attack_actor attackAction)
                (character targetPlayer)) as Hpid'.
  pose proof (inventory_after_damage game (attack_actor attackAction)
                (character targetPlayer)) as Hinv.
  unfold ATTACK_COMPONENT_perform. rewrite Hname.
  change (negb true) with false. steps. rewrite Hweapon. steps.
  rewrite Htarget. steps. rewrite Hpid', Hpid.
  unfold expectActorPlayer. steps. rewrite Hplayer. steps.
  rewrite Hplayer. steps.
  destruct (Animal_isDead _); steps; rewrite ?Hplayer; steps;
    destruct (item weaponStack); steps; try reflexivity;
    rewrite Hinv;
    destruct (Inventory_removeFromInventory _ _ _) as [[newInventory taken] | msg];
    reflexivity.
Qed.

End AttackReports.

(** X9. A performed Attack returns the log it was given and sends two
    notices, to the attacker and to the target; it sends the two kill
    notices after them exactly when the target is dead once the damage is
    dealt. *)
Theorem ATTACK_perform_notices `{C : Collaborators}
  (attackAction : AttackAction) (entries : list string) (game game' : World)
  (result : PerformResult)
  (weaponStack : ItemStack) (targetPlayer actorPlayer : Player) (pid : string)
  (Hperformed :
     ATTACK_COMPONENT_perform attackAction entries game = (Ok result, game'))
  (Hweapon :
     resolveWeaponStack attackAction
       (inventory (animals game (attack_actor attackAction))) = Some weaponStack)
  (Htarget : findTargetPlayer (targetName attackAction) game = Some targetPlayer)
  (Hpid : playerId (animals game (attack_actor attackAction)) = Some pid)
  (Hplayer :
     Game_getPlayer
       (updateWorld game (character targetPlayer)
          (takeDamage
             (num_mul (actualTimesAttacked attackAction (item weaponStack))
                (item_damageAmount (item weaponStack)))))
       pid
     = Some actorPlayer) :
  let effective := actualTimesAttacked attackAction (item weaponStack) in
  let totalDamage := num_mul effective (item_damageAmount (item weaponStack)) in
  let damaged :=
    animals (updateWorld game (character targetPlayer) (takeDamage totalDamage))
            (character targetPlayer) in
  log result = entries
  /\ messages result
     = ([mkMessage Game
           ("You attacked " ++ name targetPlayer ++ " "
            ++ number_toString effective ++ " time(s) for a total of "
            ++ number_toString totalDamage ++ " damage!")
           [actorPlayer];
         mkMessage Game
           (name actorPlayer ++ " attacked you for "
            ++ number_toString totalDamage ++ " damage!")
           [targetPlayer]]
        ++ (if Animal_isDead damaged
            then [mkMessage Game ("You killed " ++ name targetPlayer ++ "!")
                    [actorPlayer];
                  mkMessage Game ("You were killed by " ++ name actorPlayer)
                    [targetPlayer]]
            else []))%list.
Proof.
  cbv zeta.
  destruct (ATTACK_performed_inv _ _ _ _ _ Hperformed) as (Hname & _ & _).
  pose proof (ATTACK_perform_with_player attackAction entries game weaponStack
                targetPlayer actorPlayer pid Hname Hweapon Htarget Hpid Hplayer)
    as Heq.
  cbv zeta in Heq. rewrite Hperformed in Heq.
  destruct (item weaponStack);
    try (injection Heq as -> ->; split; [reflexivity |]; cbn [messages];
         reflexivity).
  destruct (Inventory_removeFromInventory _ _ _) as [[newInventory taken] |];
    [| discriminate Heq].
  injection Heq as -> ->. split; [reflexivity |]. cbn [messages]. reflexivity.
Qed.

Lemma ATTACK_perform_notices_witness :
  let attackAction := mkAttackAction 1%nat (Fin 0) "baz" "Fist" (Fin 10) Attack in
  let out := ATTACK_COMPONENT_perform attackAction ["earlier"] Reference.world in
  exists result,
    fst out = Ok result
    /\ log result = ["earlier"]
    /\ List.map content (messages result)
       = ["You attacked Baz 10 time(s) for a total of 10 damage!";
          "Baz attacked you for 10 damage!";
          "You killed Baz!";
          "You were killed by Baz"].
Proof.
  cbv zeta.
  pose (out := ATTACK_COMPONENT_perform
                 (mkAttackAction 1%nat (Fin 0) "baz" "Fist" (Fin 10) Attack)
                 ["earlier"] Reference.world).
  assert (Hperformed :
            out = (Ok (match fst out with
                       | Ok r => r
                       | Throw _ => mkPerformResult [] []
                       end),
                   snd out))
    by (vm_compute; reflexivity).
  destruct (ATTACK_perform_notices _ _ _ (snd out)
              (match fst out with Ok r => r | Throw _ => mkPerformResult [] [] end)
              (mkItemStack Weapon_FIST (Fin 1) (Fin 1))
              Reference.baz1 Reference.baz2 "baz" Hperformed
              ltac:(reflexivity) ltac:(reflexivity) ltac:(reflexivity)
              ltac:(reflexivity))
    as [Hlog Hmessages].
  exists (match fst out with Ok r => r | Throw _ => mkPerformResult [] [] end).
  split; [vm_compute; reflexivity |].
  split; [exact Hlog |].
  refine (eq_trans (f_equal (List.map content) Hmessages) _). reflexivity.
Defined.

(** X10. A fault that [perform] raises after it has resolved the weapon
    and the target does not undo the damage: the world it leaves is the
    world with the target's health lowered, and nothing else changed. *)
Theorem ATTACK_fault_keeps_the_damage `{C : Collaborators}
  (attackAction : AttackAction) (entries : list string) (game : World)
  (weaponStack : ItemStack) (targetPlayer : Player) (msg : string)
  (Hname : Weapon_stringIsAttackWeaponName (weaponName attackAction) = true)
  (Hweapon :
     resolveWeaponStack attackAction
       (inventory (animals game (attack_actor attackAction))) = Some weaponStack)
  (Htarget : findTargetPlayer (targetName attackAction) game = Some targetPlayer)
  (Hfault : fst (ATTACK_COMPONENT_perform attackAction entries game) = Throw msg) :
  let totalDamage :=
    num_mul (actualTimesAttacked attackAction (item weaponStack))
            (item_damageAmount (item weaponStack)) in
  let game' := snd (ATTACK_COMPONENT_perform attackAction entries game) in
  game' = updateWorld game (character targetPlayer) (takeDamage totalDamage)
  /\ health (stats (animals game' (character targetPlayer)))
     = Math_max (Fin 0)
         (num_sub (health (stats (animals game (character targetPlayer))))
                  totalDamage).
Proof.
  cbv zeta.
  pose proof (ATTACK_perform_cases attackAction entries game weaponStack
                targetPlayer Hname Hweapon Htarget) as Hcases.
  cbv zeta in Hcases.
  assert (Hworld :
            snd (ATTACK_COMPONENT_perform attackAction entries game)
            = updateWorld game (character targetPlayer)
                (takeDamage
                   (num_mul (actualTimesAttacked attackAction (item weaponStack))
                      (item_damageAmount (item weaponStack))))).
  { destruct (playerId (animals game (attack_actor attackAction))) as [pid |];
      [| now rewrite Hcases].
    destruct (Game_getPlayer _ pid); [| now rewrite Hcases].
    destruct (item weaponStack);
      try (destruct Hcases as [r Hr]; rewrite Hr in Hfault; discriminate Hfault).
    destruct (Inventory_removeFromInventory _ _ _) as [[newInventory taken] |];
      [| now rewrite Hcases].
    destruct Hcases as [r Hr]; rewrite Hr in Hfault; discriminate Hfault. }
  split; [exact Hworld |]. rewrite Hworld. apply health_after_damage.
Qed.

Lemma ATTACK_fault_keeps_the_damage_witness :
  let attackAction := mkAttackAction 5%nat (Fin 0) "baz" "Knife" (Fin 2) Attack in
  let out := ATTACK_COMPONENT_perform attackAction [] Reference.world in
  fst out = Throw "Expected attacker to be a player!"
  /\ health (stats (animals Reference.world 0%nat)) = Fin 10
  /\ health (stats (animals (snd out) 0%nat)) = Fin 4.
Proof.
  cbv zeta. split; [reflexivity |]. split; [reflexivity |].
  refine (proj2 (ATTACK_fault_keeps_the_damage
                   (mkAttackAction 5%nat (Fin 0) "baz" "Knife" (Fin 2) Attack)
                   [] Reference.world
                   (mkItemStack Reference.KNIFE (Fin 1) (Fin 1)) Reference.baz1
                   "Expected attacker to be a player!" _ _ _ _));
    reflexivity.
Defined.

(** X11. [perform] of an Attack changes no object other than the attacker
    and the character of the target it resolves, and leaves the players,
    the map and the random draws alone; when the weapon name is not an
    attack weapon's, or no weapon or no target is resolved, it raises a
    fault and changes nothing at all. *)
Theorem ATTACK_perform_touches_attacker_and_target `{C : Collaborators}
  (attackAction : AttackAction) (entries : list string) (game : World) :
  let out := ATTACK_COMPONENT_perform attackAction entries game in
  let inv := inventory (animals game (attack_actor attackAction)) in
  players (snd out) = players game
  /\ map (snd out) = map game
  /\ rng (snd out) = rng game
  /\ rngDraws (snd out) = rngDraws game
  /\ (forall l,
         l <> attack_actor attackAction ->
         (forall targetPlayer,
             findTargetPlayer (targetName attackAction) game = Some targetPlayer ->
             l <> character targetPlayer) ->
         animals (snd out) l = animals game l)
  /\ (Weapon_stringIsAttackWeaponName (weaponName attackAction) = false
      \/ resolveWeaponStack attackAction inv = None
      \/ findTargetPlayer (targetName attackAction) game = None ->
      snd out = game /\ exists msg, fst out = Throw msg).
Proof.
  cbv zeta.
  destruct (Weapon_stringIsAttackWeaponName (weaponName attackAction)) eqn:Hname.
  2: { unfold ATTACK_COMPONENT_perform. rewrite Hname. simpl.
       repeat split; eauto. }
  destruct (resolveWeaponStack attackAction
              (inventory (animals game (attack_actor attackAction))))
    as [weaponStack |] eqn:Hweapon.
  2: { unfold ATTACK_COMPONENT_perform. rewrite Hname.
       change (negb true) with false. steps. rewrite Hweapon. simpl.
       repeat split; eauto. }
  destruct (findTargetPlayer (targetName attackAction) game)
    as [targetPlayer |] eqn:Htarget.
  2: { unfold ATTACK_COMPONENT_perform. rewrite Hname.
       change (negb true) with false. steps. rewrite Hweapon. steps.
       rewrite Htarget. simpl. repeat split; eauto. }
  pose proof (ATTACK_perform_cases attackAction entries game weaponStack
                targetPlayer Hname Hweapon Htarget) as Hcases.
  cbv zeta in Hcases.
  assert (Hframe :
            forall game',
              (exists f g h,
                  game' = updateWorld game (character targetPlayer) f
                  \/ game' = updateWorld
                               (updateWorld game (character targetPlayer) f)
                               (attack_actor attackAction) g
                  \/ game' = updateWorld
                               (updateWorld
                                  (updateWorld game (character targetPlayer) f)
                                  (attack_actor attackAction) g)
                               (attack_actor attackAction) h) ->
              players game' = players game
              /\ map game' = map game
              /\ rng game' = rng game
              /\ rngDraws game' = rngDraws game
              /\ (forall l,
                     l <> attack_actor attackAction ->
                     (forall targetPlayer0,
                         Some targetPlayer = Some targetPlayer0 ->
                         l <> character targetPlayer0) ->
                     animals game' l = animals game l)
              /\ (true = false \/ Some weaponStack = None
                  \/ Some targetPlayer = None ->
                  game' = game /\ exists msg,
                      fst (ATTACK_COMPONENT_perform attackAction entries game)
                      = Throw msg)).
  { intros game' (f & g & h & [-> | [-> | ->]]);
      (repeat split;
       [intros l Hl Hother; specialize (Hother _ eq_refl);
        rewrite ?updateWorld_other by assumption; reflexivity
       | match goal with
         | H : _ \/ _ |- _ => destruct H as [H | [H | H]]; discriminate H
         end ..]). }
  apply Hframe.
  destruct (playerId (animals game (attack_actor attackAction))) as [pid |];
    [| rewrite Hcases; exists (takeDamage
         (num_mul (actualTimesAttacked attackAction (item weaponStack))
            (item_damageAmount (item weaponStack)))),
         (fun a => a), (fun a => a); left; reflexivity].
  destruct (Game_getPlayer _ pid);
    [| rewrite Hcases; exists (takeDamage
         (num_mul (actualTimesAttacked attackAction (item weaponStack))
            (item_damageAmount (item weaponStack)))),
         (fun a => a), (fun a => a); left; reflexivity].
  destruct (item weaponStack);
    try (destruct Hcases as [r Hr]; rewrite Hr; do 3 eexists;
         right; right; reflexivity).
  destruct (Inventory_removeFromInventory _ _ _) as [[newInventory taken] |].
  - destruct Hcases as [r Hr]; rewrite Hr. do 3 eexists. right; left.
    reflexivity.
  - rewrite Hcases. do 3 eexists. left. reflexivity.
    Unshelve. all: exact (fun a => a).
Qed.

(** ** Ingest *)

Section IngestFacts.
Context `{C : Collaborators}.

Lemma rng_updateWorld (game : World) (l : loc) (f : Animal -> Animal) :
  rng (updateWorld game l f) = rng game.
Proof. reflexivity. Qed.

Lemma rngDraws_updateWorld (game : World) (l : loc) (f : Animal -> Animal) :
  rngDraws (updateWorld game l f) = rngDraws game.
Proof. reflexivity. Qed.

End IngestFacts.

(** X12. What ingesting does to a player's character, once the item is
    removed and found ingestible: the inventory is the one the removal
    returned and the stats are changed by the item's; the character ends
    poisoned when the item is poisoned, or when it was poisoned and the
    item is no cure; it ends addicted when it was, or when the item is
    addictive and the draw says so; one draw is made for an addictive item
    and none otherwise; it ends immortal when it was or the item grants
    it; the three meters are set by [updateMeterCurrentValue]; and the log
    and the messages each grow by one entry per cure, poisoning and
    addiction. *)
Theorem INGEST_effects_on_player_character `{C : Collaborators}
  (ingestAction : IngestAction) (entries : list string) (game : World)
  (newInventory : Inventory) (itemStack : ItemStack)
  (itemName : ItemName) (props : Ingestible) (pid : string) (player : Player)
  (Hremoved :
     Inventory_removeFromInventory
       (inventory (animals game (ingest_actor ingestAction)))
       (ingest_itemName ingestAction) (Fin 1)
     = Ok (newInventory, itemStack))
  (Hitem : item itemStack = IngestibleItem itemName props)
  (Hpid : playerId (animals game (ingest_actor ingestAction)) = Some pid)
  (Hplayer :
     Game_getPlayer
       (updateWorld
          (updateWorld game (ingest_actor ingestAction)
             (fun a => with_inventory a newInventory))
          (ingest_actor ingestAction)
          (fun a => with_stats a (Stats_changeStats (stats a) (ing_stats props))))
       pid
     = Some player) :
  let out := INGEST_COMPONENT_perform ingestAction entries game in
  let before := animals game (ingest_actor ingestAction) in
  let after := animals (snd out) (ingest_actor ingestAction) in
  let coin := rng game (rngDraws game) in
  let cured := (curesPoisoning props && isActive (poison (effects before)))%bool in
  let addicted := (isAddictive props && coin)%bool in
  let notices := (Nat.b2n cured + Nat.b2n (isPoisoned props) + Nat.b2n addicted)%nat in
  inventory after = newInventory
  /\ stats after = Stats_changeStats (stats before) (ing_stats props)
  /\ isActive (poison (effects after))
     = (isPoisoned props
        || (isActive (poison (effects before)) && negb (curesPoisoning props)))%bool
  /\ isActive (addiction (effects after))
     = (isActive (addiction (effects before)) || addicted)%bool
  /\ isActive (immortality (effects after))
     = (isActive (immortality (effects before)) || givesImmortality props)%bool
  /\ rngDraws (snd out)
     = (if isAddictive props then S (rngDraws game) else rngDraws game)
  /\ current (addiction (effects after))
     = Character_updateMeterCurrentValue
         (if addicted then with_isActive (addiction (effects before)) true
          else addiction (effects before))
         (addictionRelief props)
  /\ current (exhaustion (effects after))
     = Character_updateMeterCurrentValue (exhaustion (effects before))
         (exhaustionRelief props)
  /\ current (hunger (effects after))
     = Character_updateMeterCurrentValue (hunger (effects before))
         (hungerRelief props)
  /\ exists result,
       fst out = Ok result
       /\ List.length (messages result) = notices
       /\ List.length (log result) = (List.length entries + notices)%nat.
Proof.
  cbv zeta. unfold INGEST_COMPONENT_perform. steps. rewrite Hremoved. steps.
  rewrite Hitem. steps. rewrite !updateWorld_same.
  cbn [playerId with_stats with_inventory]. rewrite Hpid. steps.
  rewrite Hplayer. unfold INGEST_applyEffects. steps.
  rewrite !updateWorld_same.
  cbn [effects with_stats with_inventory with_effects poison with_poison].
  destruct (curesPoisoning props),
           (isActive (poison (effects (animals game (ingest_actor ingestAction)))))
             eqn:Hpoison,
           (isPoisoned props);
    cbn [andb]; steps;
    (destruct (isAddictive props); steps;
     rewrite ?rng_updateWorld, ?rngDraws_updateWorld;
     [destruct (rng game (rngDraws game)) |]; steps;
     destruct (givesImmortality props); steps;
     cbn [fst snd];
     match goal with
     | |- inventory (animals ?W ?l) = _ /\ _ =>
         let a := fresh "after" in
         let E := fresh "Eafter" in
         remember (animals W l) as a eqn:E;
         repeat (rewrite updateWorld_same in E; cbn [animals] in E);
         subst a
     end;
     cbn [rngDraws updateWorld];
     cbn [inventory stats effects poison addiction exhaustion hunger immortality
          isActive current maximum
          with_stats with_inventory with_effects with_poison with_addiction
          with_exhaustion with_hunger with_immortality with_isActive
          with_current];
     rewrite ?Hpoison;
     repeat split; rewrite ?orb_true_r, ?orb_false_r; try reflexivity;
     eexists; (split; [reflexivity |]);
     unfold push; cbn [log messages];
     rewrite ?length_app; cbn [List.length Nat.b2n andb]; split; lia).
Qed.

Lemma INGEST_effects_on_player_character_witness :
  let ingestAction := mkIngestAction 0%nat (Fin 0) "Water" Ingest in
  let out := INGEST_COMPONENT_perform ingestAction [] Kitchen.world in
  let after := animals (snd out) 0%nat in
  isActive (poison (effects (animals Kitchen.world 0%nat))) = true
  /\ isActive (poison (effects after)) = true
  /\ isActive (addiction (effects after)) = true
  /\ rngDraws (snd out) = 1%nat
  /\ stats after = mkStats (Fin 11) (Fin 5) (Fin 7) (Fin 6)
  /\ exists result,
       fst out = Ok result /\ List.length (messages result) = 3%nat.
Proof.
  cbv zeta.
  destruct (INGEST_effects_on_player_character (C := Reference.refCollaborators)
              (mkIngestAction 0%nat (Fin 0) "Water" Ingest) [] Kitchen.world
              (mkInventory [mkItemStack Kitchen.BREW (Fin 1) (Fin 5)])
              (mkItemStack Kitchen.BREW (Fin 1) (Fin 5))
              "Water"
              (mkIngestible (mkStats (Fin 1) (Fin 0) (Fin 0) (Fin 0))
                            true true true false (Fin 1) (Fin 2) (Fin 3))
              "bar" Reference.baz1
              ltac:(reflexivity) ltac:(reflexivity) ltac:(reflexivity)
              ltac:(reflexivity))
    as (_ & Hstats & Hpoison & Haddiction & _ & Hdraws & _ & _ & _
        & result & Hresult & Hmessages & _).
  split; [reflexivity |].
  split; [exact Hpoison |]. split; [exact Haddiction |].
  split; [exact Hdraws |]. split; [exact Hstats |].
  exists result. split; [exact Hresult | exact Hmessages].
Defined.

(** X13. When the item [perform] removed turns out not to be ingestible,
    the fault comes after the removal: the actor's inventory is already
    the one the removal returned, and nothing else is changed. *)
Theorem INGEST_fault_keeps_the_removal `{C : Collaborators}
  (ingestAction : IngestAction) (entries : list string) (game : World)
  (newInventory : Inventory) (itemStack : ItemStack)
  (Hremoved :
     Inventory_removeFromInventory
       (inventory (animals game (ingest_actor ingestAction)))
       (ingest_itemName ingestAction) (Fin 1)
     = Ok (newInventory, itemStack))
  (Hnot : Ingestible_itemIsIngestible (item itemStack) = false) :
  let out := INGEST_COMPONENT_perform ingestAction entries game in
  (exists msg, fst out = Throw msg)
  /\ snd out
     = updateWorld game (ingest_actor ingestAction)
         (fun a => with_inventory a newInventory)
  /\ inventory (animals (snd out) (ingest_actor ingestAction)) = newInventory.
Proof.
  cbv zeta. unfold INGEST_COMPONENT_perform. steps. rewrite Hremoved. steps.
  destruct (item itemStack); try discriminate Hnot; steps; cbn [fst snd];
    rewrite updateWorld_same; repeat split; eauto.
Qed.

Lemma INGEST_fault_keeps_the_removal_witness :
  let ingestAction := mkIngestAction 2%nat (Fin 0) "Water" Ingest in
  let out := INGEST_COMPONENT_perform ingestAction [] Reference.world in
  inventory (animals Reference.world 2%nat)
  = mkInventory [mkItemStack Reference.DYED_WATER (Fin 1) (Fin 5)]
  /\ (exists msg, fst out = Throw msg)
  /\ inventory (animals (snd out) 2%nat) = mkInventory [].
Proof.
  cbv zeta. split; [reflexivity |].
  destruct (INGEST_fault_keeps_the_removal (C := Reference.refCollaborators)
              (mkIngestAction 2%nat (Fin 0) "Water" Ingest) [] Reference.world
              (mkInventory [])
              (mkItemStack Reference.DYED_WATER (Fin 1) (Fin 5))
              ltac:(reflexivity) ltac:(reflexivity))
    as (Hfault & _ & Hinventory).
  split; [exact Hfault | exact Hinventory].
Defined.

(** X14. For an actor that is no player's character, ingesting changes
    the inventory and the stats only: no effect is touched, no draw is
    made, nothing is logged and no message is sent. *)
Theorem INGEST_of_a_non_player_changes_inventory_and_stats `{C : Collaborators}
  (ingestAction : IngestAction) (entries : list string) (game : World)
  (newInventory : Inventory) (itemStack : ItemStack)
  (itemName : ItemName) (props : Ingestible)
  (Hremoved :
     Inventory_removeFromInventory
       (inventory (animals game (ingest_actor ingestAction)))
       (ingest_itemName ingestAction) (Fin 1)
     = Ok (newInventory, itemStack))
  (Hitem : item itemStack = IngestibleItem itemName props)
  (Hanimal : playerId (animals game (ingest_actor ingestAction)) = None) :
  let out := INGEST_COMPONENT_perform ingestAction entries game in
  let before := animals game (ingest_actor ingestAction) in
  let after := animals (snd out) (ingest_actor ingestAction) in
  fst out = Ok (mkPerformResult entries [])
  /\ inventory after = newInventory
  /\ stats after = Stats_changeStats (stats before) (ing_stats props)
  /\ effects after = effects before
  /\ rngDraws (snd out) = rngDraws game
  /\ (forall l, l <> ingest_actor ingestAction ->
                animals (snd out) l = animals game l).
Proof.
  cbv zeta. unfold INGEST_COMPONENT_perform. steps. rewrite Hremoved. steps.
  rewrite Hitem. steps. rewrite !updateWorld_same.
  cbn [playerId with_stats with_inventory]. rewrite Hanimal. steps.
  cbn [fst snd]. rewrite !updateWorld_same.
  repeat split. intros l Hl. now rewrite !updateWorld_other by assumption.
Qed.

Lemma INGEST_of_a_non_player_changes_inventory_and_stats_witness :
  let ingestAction := mkIngestAction 3%nat (Fin 0) "Stew" Ingest in
  let out := INGEST_COMPONENT_perform ingestAction [] Kitchen.world in
  fst out = Ok (mkPerformResult [] [])
  /\ stats (animals (snd out) 3%nat) = mkStats (Fin 12) (Fin 5) (Fin 8) (Fin 6)
  /\ effects (animals (snd out) 3%nat) = effects (animals Kitchen.world 3%nat).
Proof.
  cbv zeta.
  destruct (INGEST_of_a_non_player_changes_inventory_and_stats (C := Reference.refCollaborators)
              (mkIngestAction 3%nat (Fin 0) "Stew" Ingest) [] Kitchen.world
              (mkInventory [])
              (mkItemStack Reference.STEW (Fin 1) (Fin 5))
              "Stew"
              (mkIngestible (mkStats (Fin 2) (Fin 0) (Fin 1) (Fin 0))
                            false false false false (Fin 0) (Fin 0) (Fin 5))
              ltac:(reflexivity) ltac:(reflexivity) ltac:(reflexivity))
    as (Hout & _ & Hstats & Heffects & _).
  split; [exact Hout |]. split; [exact Hstats | exact Heffects].
Defined.

(** ** Pickup and Drop *)

Lemma num_ltb_irrefl (x : number) : num_ltb x x = false.
Proof. destruct x; simpl; auto using Z.ltb_irrefl. Qed.

(** X15. A Pickup without an amount asks for the whole stack of the room,
    so the room always holds enough: when the room holds the item and the
    actor's inventory is not full, [validate] accepts, whatever the size of
    the stack. *)
Theorem PICKUP_without_amount_is_for_the_whole_stack `{C : Collaborators}
  (pickupAction : ItemTransaction) (game : World) (cell : Room)
  (roomStack : ItemStack)
  (Hroom :
     Map_getCell (map game) (position_of (animals game (tx_actor pickupAction)))
     = RoomCell cell)
  (Hwhole : transactionAmount pickupAction = None)
  (Hhas : Item_hasItem (items cell) (tx_itemName pickupAction) = true)
  (Hstack : Item_getItem (items cell) (tx_itemName pickupAction) = Some roomStack)
  (Hfree :
     Inventory_inventoryIsFull (inventory (animals game (tx_actor pickupAction)))
     = false) :
  PICKUP_ACTION_validate pickupAction game = Ok valid.
Proof.
  unfold PICKUP_ACTION_validate, PICKUP_ACTION_checkAmount.
  now rewrite Hroom, Hhas, Hwhole, Hstack, num_ltb_irrefl, Hfree.
Qed.

Lemma PICKUP_without_amount_is_for_the_whole_stack_witness :
  PICKUP_ACTION_validate
    (mkItemTransaction 1%nat (Fin 0) "Rifle Bullet" None Pickup) Reference.world
  = Ok valid.
Proof.
  refine (PICKUP_without_amount_is_for_the_whole_stack
            (C := Reference.refCollaborators)
            (mkItemTransaction 1%nat (Fin 0) "Rifle Bullet" None Pickup)
            Reference.world
            (mkRoom (Fin 0) (Fin 0)
               [mkItemStack Reference.BULLET (Fin 15) (Fin 20);
                mkItemStack Reference.STEW (Fin 1) (Fin 5)] true)
            (mkItemStack Reference.BULLET (Fin 15) (Fin 20))
            _ _ _ _ _); reflexivity.
Defined.

(** X16. An explicit amount that is not a finite number, as [parseInt]
    gives for a very long run of digits, is a fault and not a rejection,
    in Pickup and in Drop alike, once the item is found where it is taken
    from. *)
Theorem PICKUP_and_DROP_fault_on_non_finite_amount `{C : Collaborators}
  (transaction : ItemTransaction) (game : World) (cell : Room) (amount : number)
  (Hroom :
     Map_getCell (map game) (position_of (animals game (tx_actor transaction)))
     = RoomCell cell)
  (Hamount : transactionAmount transaction = Some amount)
  (Hnot_finite : isFinite amount = false) :
  (Item_hasItem (items cell) (tx_itemName transaction) = true ->
   PICKUP_ACTION_validate transaction game
   = Throw "Transaction amount exists but is not finite!")
  /\ (Inventory_hasItem (inventory (animals game (tx_actor transaction)))
        (tx_itemName transaction) = true ->
      DROP_ACTION_validate transaction game
      = Throw ("Drop count " ++ number_toString amount
               ++ " exists but is not finite")).
Proof.
  unfold PICKUP_ACTION_validate, DROP_ACTION_validate.
  rewrite Hroom, Hamount, Hnot_finite.
  split; intros ->; reflexivity.
Qed.

Lemma PICKUP_and_DROP_fault_on_non_finite_amount_witness :
  PICKUP_ACTION_validate
    (mkItemTransaction 0%nat (Fin 0) "Rifle Bullet" (Some PosInf) Pickup)
    Reference.world
  = Throw "Transaction amount exists but is not finite!"
  /\ DROP_ACTION_validate
       (mkItemTransaction 0%nat (Fin 0) "Rifle Bullet" (Some PosInf) Drop)
       Reference.world
     = Throw "Drop count Infinity exists but is not finite".
Proof.
  split.
  - refine (proj1 (PICKUP_and_DROP_fault_on_non_finite_amount
                     (C := Reference.refCollaborators)
                     (mkItemTransaction 0%nat (Fin 0) "Rifle Bullet"
                        (Some PosInf) Pickup)
                     Reference.world
                     (mkRoom (Fin 0) (Fin 0)
                        [mkItemStack Reference.BULLET (Fin 15) (Fin 20);
                         mkItemStack Reference.STEW (Fin 1) (Fin 5)] true)
                     PosInf _ _ _) _); reflexivity.
  - refine (proj2 (PICKUP_and_DROP_fault_on_non_finite_amount
                     (C := Reference.refCollaborators)
                     (mkItemTransaction 0%nat (Fin 0) "Rifle Bullet"
                        (Some PosInf) Drop)
                     Reference.world
                     (mkRoom (Fin 0) (Fin 0)
                        [mkItemStack Reference.BULLET (Fin 15) (Fin 20);
                         mkItemStack Reference.STEW (Fin 1) (Fin 5)] true)
                     PosInf _ _ _) _); reflexivity.
Defined.

(** X17. For an actor who stands in a room, with an amount that is
    finite when there is one, [DROP_ACTION.validate] never raises, and it
    accepts exactly when the actor's inventory holds the item and the
    amount, when there is one, is at least 1 and at most what the actor's
    stack holds; the room is never looked at. *)
Theorem DROP_validate_accepts_exactly `{C : Collaborators}
  (dropAction : ItemTransaction) (game : World) (cell : Room)
  (Hroom :
     Map_getCell (map game) (position_of (animals game (tx_actor dropAction)))
     = RoomCell cell)
  (Hcoherent :
     Inventory_hasItem (inventory (animals game (tx_actor dropAction)))
       (tx_itemName dropAction) = true ->
     exists stackToDrop,
       Inventory_getItem (inventory (animals game (tx_actor dropAction)))
         (tx_itemName dropAction) = Some stackToDrop)
  (Hfinite :
     forall amount,
       transactionAmount dropAction = Some amount -> isFinite amount = true) :
  (exists result, DROP_ACTION_validate dropAction game = Ok result)
  /\ (DROP_ACTION_validate dropAction game = Ok valid
      <-> Inventory_hasItem (inventory (animals game (tx_actor dropAction)))
            (tx_itemName dropAction) = true
          /\ (forall amount,
                 transactionAmount dropAction = Some amount ->
                 exists n stackToDrop,
                   amount = Fin n
                   /\ 1 <= n
                   /\ Inventory_getItem
                        (inventory (animals game (tx_actor dropAction)))
                        (tx_itemName dropAction) = Some stackToDrop
                   /\ num_gtb (Fin n) (stackAmount stackToDrop) = false)).
Proof.
  unfold DROP_ACTION_validate. rewrite Hroom.
  destruct (Inventory_hasItem _ _) eqn:Hhas; cbn [negb].
  2: { split; [eauto |]. split; [discriminate | intros [H _]; discriminate H]. }
  destruct (Hcoherent eq_refl) as [stackToDrop Hstack]. rewrite Hstack.
  destruct (transactionAmount dropAction) as [amount |] eqn:Hamount.
  2: { split; [eauto |]. split; [| reflexivity].
       intros _. split; [reflexivity | discriminate]. }
  pose proof (Hfinite amount eq_refl) as Hfin.
  destruct amount as [n | | |]; try discriminate Hfin. cbn [isFinite negb].
  destruct (num_ltb (Fin n) (Fin 1)) eqn:Hlow.
  { split; [eauto |]. split; [discriminate |].
    intros [_ H]. destruct (H _ eq_refl) as (m & st & [= <-] & Hm & _).
    simpl in Hlow. apply Z.ltb_lt in Hlow. lia. }
  destruct (num_gtb (Fin n) (stackAmount stackToDrop)) eqn:Hhigh.
  { split; [eauto |]. split; [discriminate |].
    intros [_ H]. destruct (H _ eq_refl) as (m & st & [= <-] & _ & [= <-] & Hm).
    congruence. }
  split; [eauto |]. split; [| reflexivity].
  intros _. split; [reflexivity |].
  intros amount [= <-]. exists n, stackToDrop.
  simpl in Hlow. apply Z.ltb_ge in Hlow. auto.
Qed.

Lemma DROP_validate_accepts_exactly_witness :
  DROP_ACTION_validate
    (mkItemTransaction 0%nat (Fin 0) "Water" (Some (Fin 2)) Drop) Kitchen.world
  = Ok valid
  /\ exists result,
       DROP_ACTION_validate
         (mkItemTransaction 0%nat (Fin 0) "Water" (Some (Fin 3)) Drop)
         Kitchen.world
       = Ok result.
Proof.
  split; [reflexivity |].
  refine (proj1 (DROP_validate_accepts_exactly
                   (C := Reference.refCollaborators)
                   (mkItemTransaction 0%nat (Fin 0) "Water" (Some (Fin 3)) Drop)
                   Kitchen.world
                   (mkRoom (Fin 0) (Fin 0)
                      [mkItemStack Reference.BULLET (Fin 15) (Fin 20);
                       mkItemStack Reference.STEW (Fin 1) (Fin 5)] true)
                   _ _ _)).
  - reflexivity.
  - intros _. eexists. reflexivity.
  - intros amount [= <-]. reflexivity.
Defined.
